(** * job-stash: a date scheduler persisted in a document store

    A shallow embedding of [Job.ts] and [Scheduler.ts].

    - JavaScript objects used as maps (job metadata, stored documents, the
      timer table [scheduledJobs], the counter table [retriedCount]) are
      finite maps over string keys.  Only own properties are modelled: job
      ids that name a member of [Object.prototype] are outside the model.
    - Numbers are integers ([Z]); a [Date] is its epoch time in milliseconds.
    - The class [Scheduler] only has static members: they are the fields of
      one state record that every operation threads through.
    - [setTimeout]/[clearTimeout] are modelled by an explicit table of
      pending timeouts and a virtual clock; a timeout fires exactly when it
      is due.
    - The collection of the document store is the list of its documents, in
      insertion order, with the operations of the driver that the scheduler
      calls.  The [_id] field the store adds on insertion is not modelled. *)

From Stdlib Require Import ZArith Lia.
From stdpp Require Import gmap strings.

Local Open Scope string_scope.
Local Open Scope list_scope.
Local Open Scope Z_scope.

(** ** Values and documents *)

#[warnings="-register-all"]
Inductive Value : Type :=
  | VNull
  | VBool (b : bool)
  | VNum (n : Z)
  | VStr (s : string)
  | VDate (ms : Z)
  | VArr (items : list Value).

Fixpoint Value_eq_dec (a b : Value) {struct a} : {a = b} + {a ≠ b}.
Proof.
  destruct a as [|x|x|x|x|xs], b as [|y|y|y|y|ys];
    try (right; discriminate); try (left; reflexivity);
    try (destruct (decide (x = y)); [left | right]; congruence).
  assert ({xs = ys} + {xs ≠ ys}) as [e | n]; [| left | right]; try congruence.
  revert ys.
  induction xs as [|x xs IH]; intros [|y ys];
    try (right; discriminate); try (left; reflexivity).
  destruct (Value_eq_dec x y); [| right; congruence].
  destruct (IH ys); [left | right]; congruence.
Defined.

#[global] Instance Value_eq_decision : EqDecision Value := Value_eq_dec.

(** A JavaScript object with string keys: metadata, a stored document, the
    argument handed to the user callback. *)
Abbreviation Doc := (gmap string Value).

(** [{ ...a, ...b }]: the later spread wins on a shared key. *)
Definition spread (a b : Doc) : Doc := b ∪ a.

(** ** The document store *)

Module Mongo.

Abbreviation Collection := (list Doc).

Record UpdateResult : Type := {
  matchedCount : Z;
  modifiedCount : Z
}.

(** An equality filter [{k1: v1, ...}] selects the documents that hold
    those values under those keys. *)
Definition matches (filter d : Doc) : bool := bool_decide (filter ⊆ d).

Definition find (filter : Doc) (c : Collection) : Collection :=
  List.filter (matches filter) c.

(** [updateOne(filter, update)] rewrites the first matching document. *)
Fixpoint updateOne (filter : Doc) (update : Doc → Doc) (c : Collection)
  : UpdateResult * Collection :=
  match c with
  | [] => ({| matchedCount := 0; modifiedCount := 0 |}, [])
  | d :: c' =>
      if matches filter d then
        ({| matchedCount := 1;
            modifiedCount := if decide (update d = d) then 0 else 1 |},
         update d :: c')
      else
        let '(r, c'') := updateOne filter update c' in (r, d :: c'')
  end.

(** The same with an aggregation pipeline, whose expressions may be
    rejected by the store: [None] is the driver raising. *)
Fixpoint updateOnePipeline (filter : Doc) (pipeline : Doc → option Doc)
    (c : Collection) : option Collection :=
  match c with
  | [] => Some []
  | d :: c' =>
      if matches filter d then
        d' ← pipeline d; Some (d' :: c')
      else
        c'' ← updateOnePipeline filter pipeline c'; Some (d :: c'')
  end.

(** [deleteOne(filter)] removes the first matching document. *)
Fixpoint deleteOne (filter : Doc) (c : Collection) : Collection :=
  match c with
  | [] => []
  | d :: c' => if matches filter d then c' else d :: deleteOne filter c'
  end.

(** The unique index [{ key: { jobId: 1 }, unique: true }]: no two
    documents agree on [jobId] (a missing field counts as one value). *)
Definition indexKey (d : Doc) : option Value := d !! "jobId".

Definition uniqueIndex (c : Collection) : Prop := NoDup (indexKey <$> c).

#[global] Instance uniqueIndex_dec c : Decision (uniqueIndex c).
Proof. unfold uniqueIndex. apply _. Defined.

(** [insertOne(doc)] under the unique index: [None] is the duplicate-key
    error, code 11000. *)
Definition insertOne (d : Doc) (c : Collection) : option Collection :=
  if decide (indexKey d ∈ indexKey <$> c) then None else Some (c ++ [d]).

(** [updateOne(filter, { $setOnInsert, $set }, { upsert: true })]. *)
Definition upsertOne (filter setOnInsert set : Doc) (c : Collection) : Collection :=
  if existsb (matches filter) c then
    snd (updateOne filter (fun d => spread d set) c)
  else
    c ++ [spread (spread filter setOnInsert) set].

(** *** Aggregation expressions used by the retry pipeline *)

(** [{ $ifNull: ["$field", dflt] }] *)
Definition ifNull (field : option Value) (dflt : Value) : Value :=
  match field with
  | None | Some VNull => dflt
  | Some v => v
  end.

(** [{ $add: [v, 1] }]: numbers and dates can be added to. *)
Definition addOne (v : Value) : option Value :=
  match v with
  | VNum n => Some (VNum (n + 1))
  | VDate ms => Some (VDate (ms + 1))
  | _ => None
  end.

(** [{ $gte: [v, n] }] for a number [n], in the store's comparison order:
    null sorts before numbers; strings, arrays, booleans and dates after. *)
Definition gteNum (v : option Value) (n : Z) : bool :=
  match v with
  | None | Some VNull => false
  | Some (VNum m) => n <=? m
  | Some _ => true
  end.

Definition isArray (field : option Value) : option (list Value) :=
  match field with
  | Some (VArr l) => Some l
  | _ => None
  end.

(** A counter field read as a number, [dflt] standing for a field that is
    absent or null; [None] when it holds something else. *)
Definition numberOr (dflt : Z) (field : option Value) : option Z :=
  match field with
  | None | Some VNull => Some dflt
  | Some (VNum n) => Some n
  | Some _ => None
  end.

End Mongo.

(** ** The timer facility of the runtime *)

Module Timers.

(** [setTimeout] takes a delay of 1 ms when the one it is given is below 1
    or above 2^31 - 1. *)
Definition TIMEOUT_MAX : Z := 2147483647.

Definition effectiveDelay (ms : Z) : Z :=
  if (ms <? 1) || (TIMEOUT_MAX <? ms) then 1 else ms.

Section Loop.
Context {F : Type}.

(** A pending timeout: its handle, the instant it is due and the
    closure it runs. *)
Record Timeout : Type := {
  handle : nat;
  due : Z;
  body : F
}.

Record EventLoop : Type := {
  clock : Z;
  nextHandle : nat;
  pending : list Timeout
}.

Definition setTimeout (f : F) (ms : Z) (l : EventLoop) : nat * EventLoop :=
  (nextHandle l,
   {| clock := clock l;
      nextHandle := S (nextHandle l);
      pending := pending l ++
        [{| handle := nextHandle l; due := clock l + effectiveDelay ms; body := f |}] |}).

Definition unarm (h : nat) (ts : list Timeout) : list Timeout :=
  List.filter (fun t => negb (Nat.eqb (handle t) h)) ts.

(** [clearTimeout(undefined)] does nothing. *)
Definition clearTimeout (h : option nat) (l : EventLoop) : EventLoop :=
  match h with
  | None => l
  | Some h =>
      {| clock := clock l; nextHandle := nextHandle l; pending := unarm h (pending l) |}
  end.

(** The timeout that fires next: the earliest due, the first armed among
    equals. *)
Fixpoint earliest (ts : list Timeout) : option Timeout :=
  match ts with
  | [] => None
  | t :: ts' =>
      match earliest ts' with
      | Some u => if due u <? due t then Some u else Some t
      | None => Some t
      end
  end.

(** Time passes until the next timeout is due; it leaves the table. *)
Definition popNext (l : EventLoop) : option (Timeout * EventLoop) :=
  match earliest (pending l) with
  | None => None
  | Some t =>
      Some (t, {| clock := Z.max (clock l) (due t);
                  nextHandle := nextHandle l;
                  pending := unarm (handle t) (pending l) |})
  end.

End Loop.

Arguments Timeout : clear implicits.
Arguments EventLoop : clear implicits.

End Timers.

(** ** Job.ts *)

Module Job.
Import Timers.

Definition MAX_TIME : Z := 0x7FFFFFFF.

(** [class Job]: its only field is the job id. *)
Record Job : Type := { jobId : string }.

(** [new Job(jobId)]; [fresh] is what [crypto.randomUUID()] returns when it
    is asked.  An absent or empty id is falsy. *)
Definition new (fresh : string) (id : option string) : Job :=
  match id with
  | None => {| jobId := fresh |}
  | Some j => if decide (j = "") then {| jobId := fresh |} else {| jobId := j |}
  end.

Definition getJobId (this : Job) : string := jobId this.

(** The timer table [ScheduledJobs]: a key can hold a handle or
    [undefined] ([None]). *)
Abbreviation ScheduledJobs := (gmap string (option nat)).

Definition getTimeoutId (scheduledJobs : ScheduledJobs) (id : string) : option nat :=
  mjoin (scheduledJobs !! id).

(** The two arrow functions that [scheduleJob] hands to [setTimeout]. *)
Inductive Closure (C : Type) : Type :=
  | Rearm (this : Job) (callback : C) (timeRemaining : Z)
  | Fire (this : Job) (callback : C).
Arguments Rearm {C}.
Arguments Fire {C}.

Section Scheduling.
Context {C : Type}.

Definition cancelJob (this : Job) (scheduledJobs : ScheduledJobs)
    (l : EventLoop (Closure C)) : EventLoop (Closure C) :=
  clearTimeout (getTimeoutId scheduledJobs (jobId this)) l.

Definition scheduleJob (this : Job) (callback : C) (timeRemaining : Z)
    (scheduledJobs : ScheduledJobs) (l : EventLoop (Closure C))
  : ScheduledJobs * EventLoop (Closure C) :=
  let '(id, l') :=
    if MAX_TIME <? timeRemaining then
      setTimeout (Rearm this callback (timeRemaining - MAX_TIME)) MAX_TIME l
    else
      setTimeout (Fire this callback) timeRemaining l in
  (<[jobId this := Some id]> scheduledJobs, l').

(** A process that only runs jobs whose callback is opaque: each call
    is recorded with the instant at which it happens. *)
Record World : Type := {
  loop : EventLoop (Closure C);
  scheduledJobs : ScheduledJobs;
  fired : list (Z * C)
}.

Definition arm (this : Job) (callback : C) (timeRemaining : Z) (w : World) : World :=
  let '(sj, l) := scheduleJob this callback timeRemaining (scheduledJobs w) (loop w) in
  {| loop := l; scheduledJobs := sj; fired := fired w |}.

Definition cancel (this : Job) (w : World) : World :=
  {| loop := cancelJob this (scheduledJobs w) (loop w);
     scheduledJobs := scheduledJobs w;
     fired := fired w |}.

(** The next timeout fires. *)
Definition tick (w : World) : option World :=
  match popNext (loop w) with
  | None => None
  | Some (t, l) =>
      let w' := {| loop := l; scheduledJobs := scheduledJobs w; fired := fired w |} in
      Some match body t with
           | Rearm this callback timeRemaining => arm this callback timeRemaining w'
           | Fire this callback =>
               {| loop := l;
                  scheduledJobs := <[jobId this := None]> (scheduledJobs w);
                  fired := fired w ++ [(clock l, callback)] |}
           end
  end.

Definition step (w : World) : World := default w (tick w).

Definition run (n : nat) (w : World) : World := Nat.iter n step w.

End Scheduling.

Arguments World : clear implicits.

End Job.

(** ** Scheduler.ts *)

Module Scheduler.
Import Timers Mongo.

Record SchedulerOptions : Type := {
  retryWindowInSeconds : Z;
  retryCount : Z;
  useLock : bool
}.

(** [Partial<SchedulerOptions>] *)
Record PartialOptions : Type := {
  retryWindowInSeconds' : option Z;
  retryCount' : option Z;
  useLock' : option bool
}.

Inductive Config : Type :=
  | MongoOptions                        (* [{ mongo }]: an open handle *)
  | DatabaseOptions (address : string). (* [{ db: { address } }] *)

Inductive Exception : Type :=
  | Error (message : string)
  | TypeError (message : string)
  | MongoServerError (code : Z).

(** What one call of the user callback does.  The string is the thrown
    error as the wrapper serializes it,
    [JSON.stringify({ message, stack, code })]. *)
Inductive Outcome : Type :=
  | Resolves
  | Rejects (error : string)  (* the promise it returned is rejected *)
  | Throws (error : string).  (* it throws before returning *)

(** A user callback: its outcome, given how many calls were made before
    and the argument. *)
Definition Callback : Type := nat → Doc → Outcome.

(** What a caller can pass where a callback is expected. *)
Inductive Callee : Type :=
  | Function (f : Callback)
  | NotAFunction.

(** The closures built by [prepareCallback] and [prepareCallbackWithlock],
    with the variables they capture. *)
Inductive Wrapped : Type :=
  | PrepareCallback (jobId : string) (dateToRunOn : Z) (callback : Callback) (metadata : Doc)
  | PrepareCallbackWithlock (jobId : string) (dateToRunOn : Z) (callback : Callback) (metadata : Doc).

(** The first argument of [cancelJob]: [string | Job]. *)
Inductive JobRef : Type :=
  | ById (jobId : string)
  | ByJob (job : Job.Job).

(** The static members of [Scheduler], the store behind
    [jobsCollection], the runtime (timers, entropy) and two observers:
    the ids for which a wrapped callback ran and the arguments the user
    callbacks were called with, in order. *)
Record State : Type := {
  collection : Collection;       (* the documents of the collection *)
  jobsCollection : bool;         (* is [Scheduler.jobsCollection] bound? *)
  initialized : bool;
  scheduledJobs : Job.ScheduledJobs;
  options : SchedulerOptions;
  retriedCount : gmap string Z;
  loop : EventLoop (Job.Closure Wrapped);
  randomUUID : nat → string;     (* the ids [crypto.randomUUID()] will give *)
  drawn : nat;
  invoked : list string;
  calls : list Doc
}.

Definition defaultOptions : SchedulerOptions :=
  {| retryWindowInSeconds := 3600; retryCount := 3; useLock := false |}.

(** A process that has just started, next to a store holding [c]. *)
Definition boot (c : Collection) (uuids : nat → string) (now : Z) : State :=
  {| collection := c; jobsCollection := false; initialized := false;
     scheduledJobs := ∅; options := defaultOptions; retriedCount := ∅;
     loop := {| clock := now; nextHandle := 0; pending := [] |};
     randomUUID := uuids; drawn := 0; invoked := []; calls := [] |}.

Definition set_collection (c : Collection) (s : State) : State :=
  {| collection := c; jobsCollection := jobsCollection s; initialized := initialized s;
     scheduledJobs := scheduledJobs s; options := options s;
     retriedCount := retriedCount s; loop := loop s; randomUUID := randomUUID s;
     drawn := drawn s; invoked := invoked s; calls := calls s |}.

Definition set_jobsCollection (b : bool) (s : State) : State :=
  {| collection := collection s; jobsCollection := b; initialized := initialized s;
     scheduledJobs := scheduledJobs s; options := options s;
     retriedCount := retriedCount s; loop := loop s; randomUUID := randomUUID s;
     drawn := drawn s; invoked := invoked s; calls := calls s |}.

Definition set_initialized (b : bool) (s : State) : State :=
  {| collection := collection s; jobsCollection := jobsCollection s; initialized := b;
     scheduledJobs := scheduledJobs s; options := options s;
     retriedCount := retriedCount s; loop := loop s; randomUUID := randomUUID s;
     drawn := drawn s; invoked := invoked s; calls := calls s |}.

Definition set_scheduledJobs (sj : Job.ScheduledJobs) (s : State) : State :=
  {| collection := collection s; jobsCollection := jobsCollection s;
     initialized := initialized s; scheduledJobs := sj; options := options s;
     retriedCount := retriedCount s; loop := loop s; randomUUID := randomUUID s;
     drawn := drawn s; invoked := invoked s; calls := calls s |}.

Definition set_options (o : SchedulerOptions) (s : State) : State :=
  {| collection := collection s; jobsCollection := jobsCollection s;
     initialized := initialized s; scheduledJobs := scheduledJobs s; options := o;
     retriedCount := retriedCount s; loop := loop s; randomUUID := randomUUID s;
     drawn := drawn s; invoked := invoked s; calls := calls s |}.

Definition set_retriedCount (r : gmap string Z) (s : State) : State :=
  {| collection := collection s; jobsCollection := jobsCollection s;
     initialized := initialized s; scheduledJobs := scheduledJobs s;
     options := options s; retriedCount := r; loop := loop s;
     randomUUID := randomUUID s; drawn := drawn s; invoked := invoked s;
     calls := calls s |}.

Definition set_loop (l : EventLoop (Job.Closure Wrapped)) (s : State) : State :=
  {| collection := collection s; jobsCollection := jobsCollection s;
     initialized := initialized s; scheduledJobs := scheduledJobs s;
     options := options s; retriedCount := retriedCount s; loop := l;
     randomUUID := randomUUID s; drawn := drawn s; invoked := invoked s;
     calls := calls s |}.

Definition set_drawn (n : nat) (s : State) : State :=
  {| collection := collection s; jobsCollection := jobsCollection s;
     initialized := initialized s; scheduledJobs := scheduledJobs s;
     options := options s; retriedCount := retriedCount s; loop := loop s;
     randomUUID := randomUUID s; drawn := n; invoked := invoked s;
     calls := calls s |}.

Definition set_invoked (i : list string) (s : State) : State :=
  {| collection := collection s; jobsCollection := jobsCollection s;
     initialized := initialized s; scheduledJobs := scheduledJobs s;
     options := options s; retriedCount := retriedCount s; loop := loop s;
     randomUUID := randomUUID s; drawn := drawn s; invoked := i;
     calls := calls s |}.

Definition set_calls (c : list Doc) (s : State) : State :=
  {| collection := collection s; jobsCollection := jobsCollection s;
     initialized := initialized s; scheduledJobs := scheduledJobs s;
     options := options s; retriedCount := retriedCount s; loop := loop s;
     randomUUID := randomUUID s; drawn := drawn s; invoked := invoked s;
     calls := c |}.

(** *** Computations that read and write the state and may throw *)

Inductive Result (A : Type) : Type :=
  | Ok (a : A)
  | Thrown (e : Exception).
Arguments Ok {A}.
Arguments Thrown {A}.

Definition M (A : Type) : Type := State → Result A * State.

Definition pure {A : Type} (a : A) : M A := λ s, (Ok a, s).

Definition bind {A B : Type} (m : M A) (f : A → M B) : M B := λ s,
  match m s with
  | (Ok a, s') => f a s'
  | (Thrown e, s') => (Thrown e, s')
  end.

Declare Scope M_scope.
Delimit Scope M_scope with M.
Bind Scope M_scope with M.
Notation "x ← y ; z" := (bind y (λ x, z)) (only parsing) : M_scope.
Notation "y ;; z" := (bind y (λ _, z)) (only parsing) : M_scope.
Local Open Scope M_scope.

Definition throw {A : Type} (e : Exception) : M A := λ s, (Thrown e, s).
Definition gets {A : Type} (f : State → A) : M A := λ s, (Ok (f s), s).
Definition modify (f : State → State) : M unit := λ s, (Ok tt, f s).

(** [Scheduler.jobsCollection.m(...)]: calling a method of [undefined] is
    a [TypeError]. *)
Definition theCollection : M Collection := λ s,
  if jobsCollection s then (Ok (collection s), s)
  else (Thrown (TypeError "Cannot read properties of undefined"), s).

(** [new Date()] and [new Date().getTime()] *)
Definition now : M Z := gets (λ s, clock (loop s)).

(** [new Job(jobId)] *)
Definition newJob (id : option string) : M Job.Job :=
  fresh ← gets (λ s, randomUUID s (drawn s));
  match id with
  | Some j =>
      if decide (j = "") then modify (λ s, set_drawn (S (drawn s)) s) else pure tt
  | None => modify (λ s, set_drawn (S (drawn s)) s)
  end;;
  pure (Job.new fresh id).

Definition jobSchedule (job : Job.Job) (callback : Wrapped) (timeRemaining : Z) : M unit :=
  modify (λ s,
    let '(sj, l) := Job.scheduleJob job callback timeRemaining (scheduledJobs s) (loop s) in
    set_loop l (set_scheduledJobs sj s)).

Definition doClearTimeout (h : option nat) : M unit :=
  modify (λ s, set_loop (clearTimeout h (loop s)) s).

Definition deleteScheduled (id : string) : M unit :=
  modify (λ s, set_scheduledJobs (delete id (scheduledJobs s)) s).

Definition requireInitialized : M unit := λ s,
  if initialized s then (Ok tt, s)
  else (Thrown (Error "Scheduler not Initialised"), s).

(** *** The operations of [Scheduler] *)

(** [{ ...Scheduler.options, ...(useLock && { useLock }), ... }] *)
Definition mergeOptions (o : SchedulerOptions) (p : PartialOptions) : SchedulerOptions :=
  {| retryWindowInSeconds := default (retryWindowInSeconds o) (retryWindowInSeconds' p);
     retryCount := default (retryCount o) (retryCount' p);
     useLock := if default false (useLock' p) then true else useLock o |}.

Definition initDB (config : Config) : M unit :=
  match config with
  | MongoOptions => pure tt
  | DatabaseOptions address =>
      if decide (address = "") then throw (Error "Mongo URI not provided") else pure tt
  end;;
  modify (set_jobsCollection true);;
  c ← theCollection;
  (* createIndexes([{ key: { jobId: 1 }, unique: true }]) *)
  if decide (uniqueIndex c) then pure tt else throw (MongoServerError 11000).

Definition noOptions : PartialOptions :=
  {| retryWindowInSeconds' := None; retryCount' := None; useLock' := None |}.

Definition init (config : Config) (opts : option PartialOptions) : M unit :=
  initDB config;;
  modify (λ s, set_options (mergeOptions (options s) (default noOptions opts)) s);;
  modify (set_initialized true).

Definition getAllActiveJobsFromDB : M (list Doc) :=
  requireInitialized;;
  c ← theCollection;
  pure (find {[ "isActive" := VBool true ]} c).

(** [{ ...metadata, jobId, dateToRunOn, isLocked: false, isActive: true,
    createdAt: new Date() }], the document [storeJobInDB] inserts. *)
Definition jobDocument (jobId : string) (dateToRunOn : Z) (metadata : Doc) (t : Z) : Doc :=
  <["createdAt" := VDate t]>
    (<["isActive" := VBool true]>
       (<["isLocked" := VBool false]>
          (<["dateToRunOn" := VDate dateToRunOn]>
             (<["jobId" := VStr jobId]> metadata)))).

Definition storeJobInDB (jobId : string) (dateToRunOn : Z) (metadata : Doc) : M unit :=
  t ← now;
  (* try *)
  c ← theCollection;
  match insertOne (jobDocument jobId dateToRunOn metadata t) c with
  | Some c' => modify (set_collection c')
  | None => (* catch: error.code === 11000 *) throw (Error "JobId must be unique")
  end.

Definition deleteJobFromDB (jobId : string) : M unit :=
  c ← theCollection;
  modify (set_collection (deleteOne {[ "jobId" := VStr jobId ]} c)).

Definition cancelJobFromMemory (jobId : string) : M unit :=
  id ← gets (λ s, Job.getTimeoutId (scheduledJobs s) jobId);
  match id with
  | Some h => doClearTimeout (Some h);; deleteScheduled jobId
  | None => pure tt
  end.

(** [a && b] on numbers and their truthiness. *)
Definition and_then (a b : Z) : Z := if decide (a = 0) then a else b.
Definition truthy (n : Z) : bool := bool_decide (n ≠ 0).

(** [{ jobId, isActive: true, dateToRunOn }] and [{ $set: { isLocked: true } }] *)
Definition claimFilter (jobId : string) (dateToRunOn : Z) : Doc :=
  <["jobId" := VStr jobId]>
    (<["isActive" := VBool true]> {[ "dateToRunOn" := VDate dateToRunOn ]}).

Definition claimUpdate : Doc → Doc := <["isLocked" := VBool true]>.

Definition acquireLock (jobId : string) (dateToRunOn : Z) : M Z :=
  c ← theCollection;
  let '(result, c') := updateOne (claimFilter jobId dateToRunOn) claimUpdate c in
  modify (set_collection c');;
  pure (and_then (matchedCount result) (modifiedCount result)).

(** The two [$set] stages of the retry pipeline. *)
Definition retryStage1 (error : string) (t : Z) (d : Doc) : option Doc :=
  match addOne (ifNull (d !! "errorCount") (VNum 0)),
        addOne (ifNull (d !! "retriedCount") (VNum (-1))) with
  | Some errorCount, Some retried =>
      Some (<["updatedAt" := VDate t]>
              (<["errorMessages" :=
                   match isArray (d !! "errorMessages") with
                   | Some l => VArr (l ++ [VStr error])
                   | None => VArr [VStr error]
                   end]>
                 (<["isLocked" := VBool false]>
                    (<["retriedCount" := retried]>
                       (<["errorCount" := errorCount]> d)))))
  | _, _ => None
  end.

Definition retryStage2 (retryCount : Z) (d : Doc) : Doc :=
  if gteNum (d !! "retriedCount") retryCount
  then <["isActive" := VBool false]> d
  else d.

Definition retryPipeline (error : string) (retryCount t : Z) (d : Doc) : option Doc :=
  retryStage2 retryCount <$> retryStage1 error t d.

Definition updateRetryThresholdInDB (jobId error : string) : M unit :=
  c ← theCollection;
  t ← now;
  n ← gets (λ s, retryCount (options s));
  match updateOnePipeline {[ "jobId" := VStr jobId ]} (retryPipeline error n t) c with
  | Some c' => modify (set_collection c')
  | None => throw (MongoServerError 0)
  end.

Definition checkIfRetryExceeded (jobId : string) : M bool :=
  modify (λ s,
    match retriedCount s !! jobId with
    | None | Some 0 => set_retriedCount (<[jobId := 0]> (retriedCount s)) s
    | Some _ => s
    end);;
  modify (λ s,
    set_retriedCount (alter Z.succ jobId (retriedCount s)) s);;
  gets (λ s, retryCount (options s) <? default 0 (retriedCount s !! jobId)).

(** [this.retriedCount[jobId] && delete this.retriedCount[jobId]] *)
Definition forgetRetriedCount (jobId : string) : M unit :=
  modify (λ s,
    match retriedCount s !! jobId with
    | None | Some 0 => s
    | Some _ => set_retriedCount (delete jobId (retriedCount s)) s
    end).

Definition prepareCallbackWithlock := PrepareCallbackWithlock.
Definition prepareCallback := PrepareCallback.

Definition wrapCallback (jobId : string) (dateToRunOn : Z) (callback : Callback)
    (metadata : Doc) : M Wrapped :=
  lock ← gets (λ s, useLock (options s));
  if lock then pure (prepareCallbackWithlock jobId dateToRunOn callback metadata)
  else pure (prepareCallback jobId dateToRunOn callback metadata).

Definition handleRetries (jobId : string) (dateToRunOn : Z) (callback : Callback)
    (error : string) (metadata : Doc) : M unit :=
  updateRetryThresholdInDB jobId error;;
  retryExceeded ← checkIfRetryExceeded jobId;
  if retryExceeded then pure tt
  else
    job ← newJob (Some jobId);
    retryWindowInMs ← gets (λ s, retryWindowInSeconds (options s) * 1000);
    wrappedCallback ← wrapCallback jobId dateToRunOn callback metadata;
    jobSchedule job wrappedCallback retryWindowInMs.

(** [{ jobId, dateToRunOn, ...metadata }], the argument of the user
    callback. *)
Definition callbackArgument (jobId : string) (dateToRunOn : Z) (metadata : Doc) : Doc :=
  spread (<["dateToRunOn" := VDate dateToRunOn]> {[ "jobId" := VStr jobId ]}) metadata.

Definition call (callback : Callback) (arg : Doc) : M Outcome :=
  n ← gets (λ s, length (calls s));
  modify (λ s, set_calls (calls s ++ [arg]) s);;
  pure (callback n arg).

(** [scheduledJobs[this.jobId] = undefined]: the statement that follows
    [callback()] in the timeout armed by [Job.scheduleJob].  The wrapped
    callback is an [async] function and nothing awaits it, so the
    statement runs when the wrapped callback reaches its first [await]. *)
Definition timeoutResumes (this : Job.Job) : M unit :=
  modify (λ s, set_scheduledJobs (<[Job.jobId this := None]> (scheduledJobs s)) s).

(** The [try] block after the user callback was called, and the [catch]
    block.  A callback that throws before returning reaches [catch], and
    in it the first [await] (the store update of [handleRetries], which
    no statement of [timeoutResumes] touches), before the timeout
    resumes. *)
Definition settle (this : Job.Job) (awaited : bool) (jobId : string) (dateToRunOn : Z)
    (callback : Callback) (metadata : Doc) (o : Outcome) : M unit :=
  match o with
  | Resolves =>
      (if awaited then pure tt else timeoutResumes this);;
      deleteJobFromDB jobId;;
      forgetRetriedCount jobId
  | Rejects error =>
      (if awaited then pure tt else timeoutResumes this);;
      cancelJobFromMemory jobId;;
      handleRetries jobId dateToRunOn callback error metadata
  | Throws error =>
      cancelJobFromMemory jobId;;
      (if awaited then pure tt else timeoutResumes this);;
      handleRetries jobId dateToRunOn callback error metadata
  end.

(** [callback(); scheduledJobs[this.jobId] = undefined] for a wrapped
    callback. *)
Definition fire (this : Job.Job) (w : Wrapped) : M unit :=
  match w with
  | PrepareCallback jobId dateToRunOn callback metadata =>
      modify (λ s, set_invoked (invoked s ++ [jobId]) s);;
      o ← call callback (callbackArgument jobId dateToRunOn metadata);
      settle this false jobId dateToRunOn callback metadata o
  | PrepareCallbackWithlock jobId dateToRunOn callback metadata =>
      modify (λ s, set_invoked (invoked s ++ [jobId]) s);;
      lockAcquired ← acquireLock jobId dateToRunOn;
      timeoutResumes this;;
      if truthy lockAcquired then
        o ← call callback (callbackArgument jobId dateToRunOn metadata);
        settle this true jobId dateToRunOn callback metadata o
      else
        cancelJobFromMemory jobId
  end.

Definition requireFunction (callback : Callee) : M Callback :=
  match callback with
  | Function f => pure f
  | NotAFunction => throw (Error "callback is not a function")
  end.

Definition scheduleJob (callback : Callee) (dateToRunOn : Z) (jobId : option string)
    (metadata : Doc) : M Job.Job :=
  requireInitialized;;
  f ← requireFunction callback;
  job ← newJob jobId;
  storeJobInDB (Job.getJobId job) dateToRunOn metadata;;
  wrappedCallback ← wrapCallback (Job.getJobId job) dateToRunOn f metadata;
  t ← now;
  jobSchedule job wrappedCallback (dateToRunOn - t);;
  pure job.

Definition scheduleJobInMemory (callback : Callee) (dateToRunOn : Z) (jobId : string)
    (metadata : Doc) : M Job.Job :=
  requireInitialized;;
  f ← requireFunction callback;
  job ← newJob (Some jobId);
  wrappedCallback ← wrapCallback jobId dateToRunOn f metadata;
  t ← now;
  jobSchedule job wrappedCallback (dateToRunOn - t);;
  pure job.

(** [const { jobId, dateToRunOn, ...metadata } = job] for a document whose
    [jobId] is a string and whose [dateToRunOn] is a date, as all
    documents written by the scheduler are. *)
Definition destructure (job : Doc) : option (string * Z * Doc) :=
  match job !! "jobId", job !! "dateToRunOn" with
  | Some (VStr jobId), Some (VDate dateToRunOn) =>
      Some (jobId, dateToRunOn, delete "dateToRunOn" (delete "jobId" job))
  | _, _ => None
  end.

Fixpoint forEach {A : Type} (f : A → M unit) (l : list A) : M unit :=
  match l with
  | [] => pure tt
  | a :: l' => f a;; forEach f l'
  end.

Definition rescheduleJobs (callback : Callee) : M unit :=
  requireInitialized;;
  jobs ← getAllActiveJobsFromDB;
  forEach (λ job,
    match destructure job with
    | Some (jobId, dateToRunOn, metadata) =>
        scheduleJobInMemory callback dateToRunOn jobId metadata;; pure tt
    | None => pure tt
    end) jobs.

(** [dateToRunOn] is a [Date], an object: [if (dateToRunOn)] holds. *)
Definition updateJob (jobId : string) (callback : Callee) (dateToRunOn : Z)
    (metadata : Doc) : M unit :=
  id ← gets (λ s, Job.getTimeoutId (scheduledJobs s) jobId);
  doClearTimeout id;;
  deleteScheduled jobId;;
  scheduleJobInMemory callback dateToRunOn jobId metadata;;
  t ← now;
  c ← theCollection;
  modify (set_collection
    (upsertOne {[ "jobId" := VStr jobId ]}
       (<["createdAt" := VDate t]>
          (<["isActive" := VBool true]> {[ "isLocked" := VBool false ]}))
       (<["updatedAt" := VDate t]> (<["dateToRunOn" := VDate dateToRunOn]> metadata))
       c)).

Definition cancelJob (jobId : JobRef) : M unit :=
  match jobId with
  | ByJob job => modify (λ s, set_loop (Job.cancelJob job (scheduledJobs s) (loop s)) s)
  | ById _ => pure tt
  end;;
  match jobId with
  | ById id =>
      present ← gets (λ s, bool_decide (is_Some (scheduledJobs s !! id)));
      if present then
        h ← gets (λ s, Job.getTimeoutId (scheduledJobs s) id);
        doClearTimeout h
      else pure tt
  | ByJob _ => pure tt
  end;;
  let jobIdToDelete := match jobId with ByJob job => Job.getJobId job | ById id => id end in
  deleteScheduled jobIdToDelete;;
  deleteJobFromDB jobIdToDelete.

(** *** The process runs *)

(** The next timeout fires.  The promise of a wrapped callback is
    dropped by the timeout that called it. *)
Definition tick (s : State) : option State :=
  match popNext (loop s) with
  | None => None
  | Some (t, l) =>
      Some match Timers.body t with
           | Job.Rearm this callback timeRemaining =>
               snd (jobSchedule this callback timeRemaining (set_loop l s))
           | Job.Fire this callback =>
               snd (fire this callback (set_loop l s))
           end
  end.

Definition step (s : State) : State := default s (tick s).

Definition run (n : nat) (s : State) : State := Nat.iter n step s.

(** The process stops and a new one starts next to the same store. *)
Definition restart (s : State) : State :=
  boot (collection s) (λ n, randomUUID s (drawn s + n)%nat) (clock (loop s)).


(** [preserves R m]: the state after [m], whether it returns or throws,
    is related by [R] to the state before. *)
Definition preserves {A : Type} (R : State → State → Prop) (m : M A) : Prop :=
  ∀ s, R s (snd (m s)).

(** The part [f] of the state is the same. *)
Definition unchanged {A : Type} (f : State → A) : State → State → Prop :=
  λ s s', f s' = f s.

(** The argument a wrapped callback passes to the user callback, and the
    one passed by the callback a timeout closure holds. *)
Definition argumentOf (w : Wrapped) : Doc :=
  match w with
  | PrepareCallback jobId dateToRunOn _ metadata
  | PrepareCallbackWithlock jobId dateToRunOn _ metadata =>
      callbackArgument jobId dateToRunOn metadata
  end.

Definition closureArgument (c : Job.Closure Wrapped) : Doc :=
  match c with
  | Job.Rearm _ w _ | Job.Fire _ w => argumentOf w
  end.

(** Since the calls [base], user callbacks were only called with arguments
    in [A], and the pending timeouts only hold callbacks that pass one. *)
Definition callsWithin (A : Doc → Prop) (base : list Doc) (s : State) : Prop :=
  (∃ more, calls s = base ++ more ∧ Forall A more)
  ∧ Forall (λ t, A (closureArgument (Timers.body t))) (pending (loop s)).

Definition keepsWithin (A : Doc → Prop) (base : list Doc) : State → State → Prop :=
  λ s s', callsWithin A base s → callsWithin A base s'.

(** The fields of a record that the failure transition writes. *)
Definition bookkeeping : list string :=
  ["errorCount"; "retriedCount"; "isLocked"; "errorMessages"; "updatedAt"; "isActive"].

End Scheduler.

(** ** A process used in the examples *)

Module Scenario.
Import Scheduler.

Definition uuids (n : nat) : string := "c0ffee".

Definition alwaysFails : Callback := λ _ _, Rejects "boom".

(** [Scheduler.init({ mongo })] on an empty collection, at time 1000. *)
Definition started : State := snd (init MongoOptions None (boot [] uuids 1000)).

(** then [scheduleJob(alwaysFails, 1500, "j1", { op: "x" })] *)
Definition scheduled : State :=
  snd (scheduleJob (Function alwaysFails) 1500 (Some "j1") {[ "op" := VStr "x" ]} started).

Definition record : Doc := jobDocument "j1" 1500 {[ "op" := VStr "x" ]} 1000.

Definition succeeds : Callback := λ _ _, Resolves.

(** The process stops before the job is due; a new one calls [init]. *)
Definition restarted : State := snd (init MongoOptions None (restart scheduled)).

(** then [rescheduleJobs(succeeds)] *)
Definition rehydrated : State := snd (rescheduleJobs (Function succeeds) restarted).

(** The job of [scheduled] has failed three times; the process stops and a
    new one calls [init]. *)
Definition restartedLate : State := snd (init MongoOptions None (restart (run 3 scheduled))).

End Scenario.

(** ** Vocabulary for the properties of the other operations *)

Module Invariants.
Import Timers Scheduler.

(** The delay of the bounded timeout [Job.scheduleJob] arms first. *)
Definition firstWait (timeRemaining : Z) : Z :=
  if Job.MAX_TIME <? timeRemaining then Job.MAX_TIME else effectiveDelay timeRemaining.

(** The timeout [Job.scheduleJob] arms on the loop [l]. *)
Definition armed {C : Type} (this : Job.Job) (callback : C) (timeRemaining : Z)
    (l : EventLoop (Job.Closure C)) : Timeout (Job.Closure C) :=
  {| handle := nextHandle l;
     due := clock l + firstWait timeRemaining;
     body := if Job.MAX_TIME <? timeRemaining
             then Job.Rearm this callback (timeRemaining - Job.MAX_TIME)
             else Job.Fire this callback |}.


(** Handles are given out in order: the pending timeouts have distinct
    handles, all below the next one. *)
Definition loopOk {F : Type} (l : EventLoop F) : Prop :=
  NoDup (handle <$> pending l)
  ∧ Forall (λ t, (handle t < nextHandle l)%nat) (pending l).

(** ... and so do the handles kept in the timer table. *)
Definition timersOk (s : State) : Prop :=
  loopOk (loop s)
  ∧ ∀ j h, scheduledJobs s !! j = Some (Some h) → (h < nextHandle (loop s))%nat.

Definition keepsTimersOk : State → State → Prop :=
  λ s s', timersOk s → timersOk s'.

Definition keepsUnique : State → State → Prop :=
  λ s s', Mongo.uniqueIndex (collection s) → Mongo.uniqueIndex (collection s').



End Invariants.

(** * Properties *)

(** ** The store *)

Section StoreFacts.
Import Mongo.

Lemma matches_jobId (v : Value) (d : Doc) :
  matches {[ "jobId" := v ]} d = true ↔ d !! "jobId" = Some v.
Proof.
  unfold matches. rewrite bool_decide_eq_true. apply map_singleton_subseteq_l.
Qed.

Lemma matches_jobId_false (v : Value) (d : Doc) :
  matches {[ "jobId" := v ]} d = false ↔ d !! "jobId" ≠ Some v.
Proof.
  rewrite <- matches_jobId. destruct (matches _ d); split; congruence.
Qed.

(** The filter of [acquireLock]. *)
Lemma matches_claim (j : string) (date : Z) (d : Doc) :
  matches (Scheduler.claimFilter j date) d = true
  ↔ d !! "jobId" = Some (VStr j) ∧ d !! "isActive" = Some (VBool true)
    ∧ d !! "dateToRunOn" = Some (VDate date).
Proof.
  unfold matches, Scheduler.claimFilter.
  rewrite bool_decide_eq_true, map_subseteq_spec. split.
  - intros H. repeat split; apply H; by simplify_map_eq.
  - intros (H1 & H2 & H3) k v Hk.
    destruct (decide (k = "jobId")) as [->|]; [by simplify_map_eq|].
    destruct (decide (k = "isActive")) as [->|]; [by simplify_map_eq|].
    destruct (decide (k = "dateToRunOn")) as [->|]; by simplify_map_eq.
Qed.

(** A pipeline update reaches the first document the filter selects. *)
Lemma updateOnePipeline_first filter pipeline (c1 c2 : Collection) (d d' : Doc) :
  Forall (λ x, matches filter x = false) c1 →
  matches filter d = true →
  pipeline d = Some d' →
  updateOnePipeline filter pipeline (c1 ++ d :: c2) = Some (c1 ++ d' :: c2).
Proof.
  intros Hc1 Hd Hp. induction Hc1 as [|x c1 Hx _ IH]; simpl.
  - by rewrite Hd, Hp.
  - by rewrite Hx, IH.
Qed.

Lemma updateOne_first filter update (c1 c2 : Collection) (d : Doc) :
  Forall (λ x, matches filter x = false) c1 →
  matches filter d = true →
  updateOne filter update (c1 ++ d :: c2)
  = ({| matchedCount := 1; modifiedCount := if decide (update d = d) then 0 else 1 |},
     c1 ++ update d :: c2).
Proof.
  intros Hc1 Hd. induction Hc1 as [|x c1 Hx _ IH]; simpl.
  - by rewrite Hd.
  - by rewrite Hx, IH.
Qed.

Lemma updateOne_none filter update (c : Collection) :
  Forall (λ x, matches filter x = false) c →
  updateOne filter update c = ({| matchedCount := 0; modifiedCount := 0 |}, c).
Proof.
  induction 1 as [|x c Hx _ IH]; simpl; [done|]. by rewrite Hx, IH.
Qed.

Lemma deleteOne_none filter (c : Collection) :
  Forall (λ x, matches filter x = false) c → deleteOne filter c = c.
Proof.
  induction 1 as [|x c Hx _ IH]; simpl; [done|]. by rewrite Hx, IH.
Qed.

(** Under the unique index, once the document with a given [jobId] is
    deleted none is left. *)
Lemma deleteOne_unique (v : Value) (c : Collection) :
  uniqueIndex c →
  Forall (λ x, matches {[ "jobId" := v ]} x = false) (deleteOne {[ "jobId" := v ]} c).
Proof.
  unfold uniqueIndex. induction c as [|d c IH]; simpl; [constructor|].
  intros Hnd. apply NoDup_cons in Hnd as [Hd Hc].
  destruct (matches _ d) eqn:Hm.
  - apply matches_jobId in Hm. apply Forall_forall. intros x Hx.
    apply matches_jobId_false. intros Hxv. apply Hd.
    apply list_elem_of_fmap. exists x. unfold indexKey. split; [congruence|].
    done.
  - constructor; auto.
Qed.

Lemma insertOne_Some (d : Doc) (c c' : Collection) :
  insertOne d c = Some c' →
  c' = c ++ [d] ∧ Forall (λ x, x !! "jobId" ≠ d !! "jobId") c.
Proof.
  unfold insertOne. case_decide as Hin; [done|]. intros [= <-]. split; [done|].
  apply Forall_forall. intros x Hx Heq. apply Hin.
  apply list_elem_of_fmap. exists x. unfold indexKey. by split.
Qed.

Lemma insertOne_duplicate (d x : Doc) (c : Collection) :
  x ∈ c → x !! "jobId" = d !! "jobId" → insertOne d c = None.
Proof.
  intros Hx Heq. unfold insertOne. case_decide as Hin; [done|]. exfalso. apply Hin.
  apply list_elem_of_fmap. exists x. unfold indexKey. by split.
Qed.

End StoreFacts.

(** ** What an operation leaves alone *)

Section Frames.
Import Timers Mongo Scheduler.

Context (R : State → State → Prop) `{!Reflexive R} `{!Transitive R}.

Lemma preserves_pure {A} (a : A) : preserves R (pure a).
Proof. intros s. simpl. reflexivity. Qed.

Lemma preserves_throw {A} (e : Exception) : preserves R (@throw A e).
Proof. intros s. simpl. reflexivity. Qed.

Lemma preserves_gets {A} (f : State → A) : preserves R (gets f).
Proof. intros s. simpl. reflexivity. Qed.

Lemma preserves_modify (f : State → State) : (∀ s, R s (f s)) → preserves R (modify f).
Proof. intros H s. apply H. Qed.

Lemma preserves_bind {A B} (m : M A) (f : A → M B) :
  preserves R m → (∀ a, preserves R (f a)) → preserves R (bind m f).
Proof.
  intros Hm Hf s. unfold bind. specialize (Hm s).
  destruct (m s) as [[a | e] s']; simpl in *; [|done].
  etransitivity; [exact Hm | apply Hf].
Qed.

Lemma preserves_bind_assoc {A B C} (m : M A) (f : A → M B) (g : B → M C) :
  preserves R (bind m (λ a, bind (f a) g)) → preserves R (bind (bind m f) g).
Proof.
  intros H s. specialize (H s). unfold bind in *.
  by destruct (m s) as [[a | e] s'].
Qed.

Lemma preserves_bind_pure {A B} (a : A) (f : A → M B) :
  preserves R (f a) → preserves R (bind (pure a) f).
Proof. intros H s. apply H. Qed.

Lemma preserves_theCollection : preserves R theCollection.
Proof. intros s. unfold theCollection. destruct (jobsCollection s); simpl; reflexivity. Qed.

Lemma preserves_requireInitialized : preserves R requireInitialized.
Proof. intros s. unfold requireInitialized. destruct (initialized s); simpl; reflexivity. Qed.

Lemma preserves_forEach {A} (f : A → M unit) (l : list A) :
  (∀ a, a ∈ l → preserves R (f a)) → preserves R (forEach f l).
Proof.
  intros Hf. induction l as [|a l IH]; simpl.
  - apply preserves_pure.
  - apply preserves_bind; [apply Hf; left | intros _; apply IH].
    intros b Hb. apply Hf. by right.
Qed.

End Frames.

Create HintDb frame.

#[local] Hint Resolve preserves_pure preserves_throw preserves_gets preserves_theCollection
  preserves_requireInitialized : frame.

(** Walks through the binds and branches of an operation. *)
Ltac frame_step :=
  lazymatch goal with
  | |- Reflexive _ => apply _
  | |- Transitive _ => apply _
  | |- Scheduler.preserves _ (Scheduler.bind (Scheduler.bind _ _) _) =>
      apply preserves_bind_assoc
  | |- Scheduler.preserves _ (Scheduler.bind (Scheduler.pure _) _) =>
      apply preserves_bind_pure
  | |- Scheduler.preserves _ (Scheduler.bind (match ?x with _ => _ end) _) => destruct x
  | |- Scheduler.preserves _ (Scheduler.bind _ _) => apply preserves_bind; [.. | | intros ?]
  | |- Scheduler.preserves _ (Scheduler.forEach _ _) =>
      apply preserves_forEach; [.. | intros ? ?]
  | |- Scheduler.preserves _ (Scheduler.modify _) => apply preserves_modify; intros ?
  | |- Scheduler.preserves _ (match ?x with _ => _ end) => destruct x
  | |- Scheduler.preserves _ _ => solve [eauto with frame typeclass_instances]
  end.

Ltac frame := repeat frame_step.

(** ** The failure transition *)

Section RetryTransition.
Import Timers Mongo Scheduler.

(** What the two stages of the pipeline do to one document. *)
Lemma retryPipeline_spec (error : string) (n t : Z) (d : Doc) (e r : Z) :
  numberOr 0 (d !! "errorCount") = Some e →
  numberOr (-1) (d !! "retriedCount") = Some r →
  ∃ d', retryPipeline error n t d = Some d'
    ∧ d' !! "errorCount" = Some (VNum (e + 1))
    ∧ d' !! "retriedCount" = Some (VNum (r + 1))
    ∧ d' !! "isLocked" = Some (VBool false)
    ∧ d' !! "errorMessages"
      = Some (VArr (default [] (isArray (d !! "errorMessages")) ++ [VStr error]))
    ∧ d' !! "updatedAt" = Some (VDate t)
    ∧ (n ≤ r + 1 → d' !! "isActive" = Some (VBool false))
    ∧ (r + 1 < n → d' !! "isActive" = d !! "isActive")
    ∧ (∀ k, k ∉ bookkeeping → d' !! k = d !! k).
Proof.
  intros He Hr. unfold retryPipeline, retryStage1.
  assert (addOne (ifNull (d !! "errorCount") (VNum 0)) = Some (VNum (e + 1))) as ->.
  { destruct (d !! "errorCount") as [[]|]; simplify_eq/=; done. }
  assert (addOne (ifNull (d !! "retriedCount") (VNum (-1))) = Some (VNum (r + 1))) as ->.
  { destruct (d !! "retriedCount") as [[]|]; simplify_eq/=; done. }
  eexists. split; [reflexivity|]. unfold retryStage2.
  rewrite !lookup_insert_ne, lookup_insert_eq by done. simpl.
  assert (∀ k, k ∉ bookkeeping → ∀ m : Doc,
            <["updatedAt" := VDate t]>
              (<["errorMessages" :=
                   match isArray (d !! "errorMessages") with
                   | Some l => VArr (l ++ [VStr error])
                   | None => VArr [VStr error]
                   end]>
                 (<["isLocked" := VBool false]>
                    (<["retriedCount" := VNum (r + 1)]>
                       (<["errorCount" := VNum (e + 1)]> d)))) !! k = d !! k) as Hother.
  { intros k Hk m. unfold bookkeeping in Hk.
    rewrite !lookup_insert_ne; [done|..]; intros <-; apply Hk; set_solver. }
  destruct (Z.leb_spec n (r + 1)).
  - repeat split; try (by simplify_map_eq); try lia.
    + simplify_map_eq. by destruct (isArray (d !! "errorMessages")).
    + intros k Hk. rewrite lookup_insert_ne; [by apply Hother|].
      intros <-. apply Hk. unfold bookkeeping. set_solver.
  - repeat split; try (by simplify_map_eq); try lia.
    + simplify_map_eq. by destruct (isArray (d !! "errorMessages")).
    + intros k Hk. by apply Hother.
Qed.

(** The whole update reaches the record of the job and no other. *)
Lemma updateRetryThresholdInDB_first (s : State) (jobId error : string)
    (c1 c2 : Collection) (d d' : Doc) :
  jobsCollection s = true →
  collection s = c1 ++ d :: c2 →
  Forall (λ x, x !! "jobId" ≠ Some (VStr jobId)) c1 →
  d !! "jobId" = Some (VStr jobId) →
  retryPipeline error (retryCount (options s)) (clock (loop s)) d = Some d' →
  updateRetryThresholdInDB jobId error s = (Ok tt, set_collection (c1 ++ d' :: c2) s).
Proof.
  intros Hb Hc Hc1 Hd Hp.
  unfold updateRetryThresholdInDB, bind, theCollection, now, gets, modify. rewrite Hb, Hc.
  erewrite updateOnePipeline_first; [done| |by apply matches_jobId|done].
  eapply Forall_impl; [exact Hc1|]. intros x Hx. by apply matches_jobId_false.
Qed.

End RetryTransition.

Section RetryTransitionClaim.
Import Timers Mongo Scheduler.

(** C3, as the code has it.  One application of the failure transition is
    one pipeline update of the record of the job.  It adds 1 to
    [errorCount], an absent field counting as 0, and 1 to [retriedCount],
    an absent field counting as -1: after the first failure of a fresh
    record [errorCount] is 1 and [retriedCount] is 0.  It sets [isLocked]
    to false, appends the serialized error to [errorMessages], sets
    [updatedAt] to the current time, and sets [isActive] to false iff the
    resulting [retriedCount] is at least [retryCount], leaving [isActive]
    and every other field unchanged otherwise. *)
Theorem failure_transition (s : State) (jobId error : string)
    (c1 c2 : Collection) (d : Doc) (e r : Z) :
  jobsCollection s = true →
  collection s = c1 ++ d :: c2 →
  Forall (λ x, x !! "jobId" ≠ Some (VStr jobId)) c1 →
  d !! "jobId" = Some (VStr jobId) →
  numberOr 0 (d !! "errorCount") = Some e →
  numberOr (-1) (d !! "retriedCount") = Some r →
  ∃ d',
    updateRetryThresholdInDB jobId error s = (Ok tt, set_collection (c1 ++ d' :: c2) s)
    ∧ d' !! "errorCount" = Some (VNum (e + 1))
    ∧ d' !! "retriedCount" = Some (VNum (r + 1))
    ∧ d' !! "isLocked" = Some (VBool false)
    ∧ d' !! "errorMessages"
      = Some (VArr (default [] (isArray (d !! "errorMessages")) ++ [VStr error]))
    ∧ d' !! "updatedAt" = Some (VDate (clock (loop s)))
    ∧ (retryCount (options s) ≤ r + 1 → d' !! "isActive" = Some (VBool false))
    ∧ (r + 1 < retryCount (options s) → d' !! "isActive" = d !! "isActive")
    ∧ (∀ k, k ∉ bookkeeping → d' !! k = d !! k).
Proof.
  intros Hb Hc Hc1 Hd He Hr.
  destruct (retryPipeline_spec error (retryCount (options s)) (clock (loop s)) d e r He Hr)
    as (d' & Hp & Hrest).
  exists d'. split; [|exact Hrest].
  by apply (updateRetryThresholdInDB_first s jobId error c1 c2 d d').
Qed.

(** A fresh record fails for the first time: [errorCount] becomes 1 and
    [retriedCount] becomes 0. *)
Lemma failure_transition_fresh :
  ∃ d',
    updateRetryThresholdInDB "j1" "boom" Scenario.scheduled
    = (Ok tt, set_collection ([] ++ d' :: []) Scenario.scheduled)
    ∧ d' !! "errorCount" = Some (VNum (0 + 1))
    ∧ d' !! "retriedCount" = Some (VNum (-1 + 1))
    ∧ d' !! "isLocked" = Some (VBool false)
    ∧ d' !! "errorMessages"
      = Some (VArr (default [] (isArray (Scenario.record !! "errorMessages"))
                    ++ [VStr "boom"]))
    ∧ d' !! "updatedAt" = Some (VDate (clock (loop Scenario.scheduled)))
    ∧ (retryCount (options Scenario.scheduled) ≤ -1 + 1 → d' !! "isActive" = Some (VBool false))
    ∧ (-1 + 1 < retryCount (options Scenario.scheduled)
       → d' !! "isActive" = Scenario.record !! "isActive")
    ∧ (∀ k, k ∉ bookkeeping → d' !! k = Scenario.record !! k).
Proof.
  apply (failure_transition Scenario.scheduled "j1" "boom" [] [] Scenario.record 0 (-1)).
  - reflexivity.
  - vm_compute. reflexivity.
  - constructor.
  - vm_compute. reflexivity.
  - vm_compute. reflexivity.
  - vm_compute. reflexivity.
Defined.

(** The claim says that both counters are 1 after the first failure of a
    fresh record; [retriedCount] is 0. *)
Lemma first_failure_retriedCount_is_0 :
  ¬ ∃ d', retryPipeline "boom" 3 1500 Scenario.record = Some d'
          ∧ d' !! "errorCount" = Some (VNum 1)
          ∧ d' !! "retriedCount" = Some (VNum 1).
Proof.
  intros (d' & Hp & _ & Hr). vm_compute in Hp. injection Hp as <-.
  vm_compute in Hr. discriminate Hr.
Qed.

End RetryTransitionClaim.

(** ** Before [init] *)

Section BeforeInit.
Import Timers Mongo Scheduler.

(** C4.  In a process where [init] was never called, [scheduleJob],
    [scheduleJobInMemory], [rescheduleJobs], [getAllActiveJobsFromDB] and
    [updateJob] throw "Scheduler not Initialised" and change nothing.
    [cancelJob] has no such check: it reaches
    [Scheduler.jobsCollection.deleteOne] with [jobsCollection] undefined
    and throws a [TypeError] instead. *)
Theorem operations_before_init (c : Collection) (uuids : nat → string) (t : Z)
    (callback : Callee) (dateToRunOn : Z) (id : option string) (jobId : string)
    (metadata : Doc) (ref : JobRef) :
  scheduleJob callback dateToRunOn id metadata (boot c uuids t)
    = (Thrown (Error "Scheduler not Initialised"), boot c uuids t)
  ∧ scheduleJobInMemory callback dateToRunOn jobId metadata (boot c uuids t)
    = (Thrown (Error "Scheduler not Initialised"), boot c uuids t)
  ∧ rescheduleJobs callback (boot c uuids t)
    = (Thrown (Error "Scheduler not Initialised"), boot c uuids t)
  ∧ getAllActiveJobsFromDB (boot c uuids t)
    = (Thrown (Error "Scheduler not Initialised"), boot c uuids t)
  ∧ updateJob jobId callback dateToRunOn metadata (boot c uuids t)
    = (Thrown (Error "Scheduler not Initialised"), boot c uuids t)
  ∧ cancelJob ref (boot c uuids t)
    = (Thrown (TypeError "Cannot read properties of undefined"), boot c uuids t)
  ∧ fst (cancelJob ref (boot c uuids t)) ≠ Thrown (Error "Scheduler not Initialised").
Proof.
  repeat split; try reflexivity.
  - by destruct ref.
  - by destruct ref.
Qed.

End BeforeInit.

(** ** Unique job ids *)

Section UniqueJobId.
Import Timers Mongo Scheduler.

(** C7.  [scheduleJob] with an explicit id that a stored record already
    has throws "JobId must be unique" and leaves the whole state as it
    was: the stored records are unchanged and no timer is armed. *)
Theorem duplicate_jobId_rejected (s : State) (callback : Callback) (dateToRunOn : Z)
    (jobId : string) (metadata first : Doc) :
  initialized s = true →
  jobsCollection s = true →
  jobId ≠ "" →
  first ∈ collection s →
  first !! "jobId" = Some (VStr jobId) →
  scheduleJob (Function callback) dateToRunOn (Some jobId) metadata s
  = (Thrown (Error "JobId must be unique"), s).
Proof.
  intros Hi Hb Hj Hin Hfirst.
  unfold scheduleJob, bind, requireInitialized, requireFunction, pure, newJob, Job.new.
  rewrite Hi. destruct (decide (jobId = "")) as [|_]; [done|].
  unfold storeJobInDB, bind, now, gets, theCollection, Job.getJobId. simpl. rewrite Hb.
  rewrite (insertOne_duplicate _ first); [done|done|].
  rewrite Hfirst. unfold jobDocument. by simplify_map_eq.
Qed.

Lemma duplicate_jobId_rejected_example :
  scheduleJob (Function Scenario.alwaysFails) 99000 (Some "j1") {[ "op" := VStr "y" ]}
    Scenario.scheduled
  = (Thrown (Error "JobId must be unique"), Scenario.scheduled).
Proof.
  apply (duplicate_jobId_rejected Scenario.scheduled Scenario.alwaysFails 99000 "j1"
           {[ "op" := VStr "y" ]} Scenario.record).
  - reflexivity.
  - reflexivity.
  - discriminate.
  - vm_compute. left.
  - vm_compute. reflexivity.
Defined.

End UniqueJobId.

(** ** Inserting the record of a job *)

Section StoreJob.
Import Timers Mongo Scheduler.

Lemma storeJobInDB_Ok (s s' : State) (jobId : string) (dateToRunOn : Z) (metadata : Doc) :
  storeJobInDB jobId dateToRunOn metadata s = (Ok tt, s') →
  jobsCollection s = true
  ∧ s' = set_collection
           (collection s ++ [jobDocument jobId dateToRunOn metadata (clock (loop s))]) s
  ∧ Forall (λ x, x !! "jobId" ≠ Some (VStr jobId)) (collection s).
Proof.
  unfold storeJobInDB, bind, now, gets, theCollection, modify, throw.
  destruct (jobsCollection s); [|done]. intros H.
  destruct (insertOne _ _) as [c'|] eqn:Hins; [|done].
  apply insertOne_Some in Hins as [-> Hall]. simplify_eq. split; [done|]. split; [done|].
  eapply Forall_impl; [exact Hall|]. intros x Hx Hxj. apply Hx. rewrite Hxj.
  unfold jobDocument. by simplify_map_eq.
Qed.

End StoreJob.

(** ** What the user callback is called with *)

Section CallbackArguments.
Import Timers Mongo Scheduler.

#[local] Instance unchanged_refl {A} (f : State → A) : Reflexive (unchanged f).
Proof. by intros s. Qed.

#[local] Instance unchanged_trans {A} (f : State → A) : Transitive (unchanged f).
Proof. unfold unchanged. intros s1 s2 s3 H1 H2. congruence. Qed.



#[local] Instance keepsWithin_refl A base : Reflexive (keepsWithin A base).
Proof. intros s H. exact H. Qed.

#[local] Instance keepsWithin_trans A base : Transitive (keepsWithin A base).
Proof. unfold keepsWithin. intros s1 s2 s3 H1 H2 H. auto. Qed.

Lemma Forall_unarm {F : Type} (P : Timeout F → Prop) (h : nat) (l : list (Timeout F)) :
  Forall P l → Forall P (unarm h l).
Proof.
  unfold unarm. induction 1 as [|t l Ht _ IH]; simpl; [constructor|].
  case_match; [constructor|]; done.
Qed.

Lemma clearTimeout_within {F : Type} (P : Timeout F → Prop) (h : option nat)
    (l : EventLoop F) :
  Forall P (pending l) → Forall P (pending (clearTimeout h l)).
Proof. destruct h; simpl; [apply Forall_unarm | done]. Qed.

Lemma jobSchedule_within A base (job : Job.Job) (w : Wrapped) (timeRemaining : Z) :
  A (argumentOf w) → preserves (keepsWithin A base) (jobSchedule job w timeRemaining).
Proof.
  intros Hw. unfold jobSchedule. apply preserves_modify. intros s [Hc Hp].
  unfold Job.scheduleJob. destruct (Job.MAX_TIME <? timeRemaining); simpl;
    (split; [exact Hc|]); (apply Forall_app; split; [exact Hp|]); by repeat constructor.
Qed.

Lemma call_within A base (callback : Callback) (arg : Doc) :
  A arg → preserves (keepsWithin A base) (call callback arg).
Proof.
  intros Harg. unfold call. frame. intros [(more & Hc & Hmore) Hp]. split; [|exact Hp].
  exists (more ++ [arg]). simpl. rewrite Hc, <- (assoc app). split; [done|].
  apply Forall_app. split; [done|]. by repeat constructor.
Qed.

(** The steps that only touch the store, the tables and the counters. *)
Ltac quiet :=
  intros [Hc Hp]; repeat case_match; (split; [exact Hc|]); simpl;
  try exact Hp; try (by apply clearTimeout_within); try (by apply Forall_unarm).

Lemma handleRetries_within A base jobId dateToRunOn callback error metadata :
  A (callbackArgument jobId dateToRunOn metadata) →
  preserves (keepsWithin A base) (handleRetries jobId dateToRunOn callback error metadata).
Proof.
  intros Hw.
  unfold handleRetries, updateRetryThresholdInDB, checkIfRetryExceeded, newJob,
    wrapCallback, now, prepareCallback, prepareCallbackWithlock.
  frame; try quiet; by apply jobSchedule_within.
Qed.

Lemma fire_within A base (this : Job.Job) (w : Wrapped) :
  A (argumentOf w) → preserves (keepsWithin A base) (fire this w).
Proof.
  intros Hw. destruct w as [jobId dateToRunOn callback metadata
                           |jobId dateToRunOn callback metadata];
    unfold fire, settle, acquireLock, timeoutResumes, deleteJobFromDB, forgetRetriedCount,
      cancelJobFromMemory, doClearTimeout, deleteScheduled;
    frame; try quiet;
    try (by apply call_within); by apply handleRetries_within.
Qed.

Lemma scheduleJobInMemory_within A base callback dateToRunOn jobId metadata :
  A (callbackArgument jobId dateToRunOn metadata) →
  preserves (keepsWithin A base) (scheduleJobInMemory callback dateToRunOn jobId metadata).
Proof.
  intros Hw.
  unfold scheduleJobInMemory, requireFunction, newJob, wrapCallback, now,
    prepareCallback, prepareCallbackWithlock.
  frame; try quiet; by apply jobSchedule_within.
Qed.

Lemma earliest_elem {F : Type} (ts : list (Timeout F)) (t : Timeout F) :
  earliest ts = Some t → t ∈ ts.
Proof.
  revert t. induction ts as [|u ts IH]; intros t; simpl; [done|].
  destruct (earliest ts) as [v|].
  - case_match; intros [= <-]; [right; by apply IH | left].
  - intros [= <-]. left.
Qed.

Lemma tick_within A base (s s' : State) :
  tick s = Some s' → callsWithin A base s → callsWithin A base s'.
Proof.
  unfold tick, popNext. destruct (earliest (pending (loop s))) as [t|] eqn:Ht; [|done].
  intros [= <-] [Hc Hp].
  assert (A (closureArgument (body t))) as Hw.
  { eapply Forall_forall in Hp; [exact Hp|]. by apply earliest_elem. }
  match goal with |- context [set_loop ?l s] =>
    assert (callsWithin A base (set_loop l s)) as Hs
  end.
  { split; [exact Hc|]. simpl. by apply Forall_unarm. }
  destruct (body t) as [this w r | this w]; simpl in Hw.
  - exact (jobSchedule_within A base this w r Hw _ Hs).
  - exact (fire_within A base this w Hw _ Hs).
Qed.

Lemma run_within A base (n : nat) (s : State) :
  callsWithin A base s → callsWithin A base (run n s).
Proof.
  intros Hs. induction n as [|n IH]; simpl; [done|].
  unfold step. destruct (tick (run n s)) as [s'|] eqn:Ht; simpl; [|done].
  by apply (tick_within A base (run n s)).
Qed.

(** The object [{ jobId, dateToRunOn, ...metadata }], key by key. *)
Lemma callbackArgument_lookup (jobId : string) (dateToRunOn : Z) (metadata : Doc)
    (k : string) :
  callbackArgument jobId dateToRunOn metadata !! k
  = match metadata !! k with
    | Some v => Some v
    | None =>
        if decide (k = "jobId") then Some (VStr jobId)
        else if decide (k = "dateToRunOn") then Some (VDate dateToRunOn)
        else None
    end.
Proof.
  unfold callbackArgument, spread. rewrite lookup_union.
  destruct (metadata !! k) as [v|]; simpl.
  - by destruct (_ !! k).
  - repeat case_decide; by simplify_map_eq.
Qed.

(** Rehydration destructures a record and the wrapper puts it together
    again. *)
Lemma destructure_argument (d metadata : Doc) (jobId : string) (dateToRunOn : Z) :
  destructure d = Some (jobId, dateToRunOn, metadata) →
  callbackArgument jobId dateToRunOn metadata = d.
Proof.
  unfold destructure. intros H.
  destruct (d !! "jobId") as [[| | |j| |]|] eqn:Hj; try done.
  destruct (d !! "dateToRunOn") as [[| | | |t|]|] eqn:Ht; try done.
  injection H as <- <- <-. apply map_eq. intros k. rewrite callbackArgument_lookup.
  destruct (decide (k = "jobId")) as [->|]; [by simplify_map_eq|].
  destruct (decide (k = "dateToRunOn")) as [->|]; [by simplify_map_eq|].
  rewrite !lookup_delete_ne by done. by destruct (d !! k).
Qed.

(** A successful [scheduleJob] with an explicit id. *)
Lemma scheduleJob_Ok (s s1 : State) (f : Callback) (dateToRunOn : Z) (jobId : string)
    (metadata : Doc) (job : Job.Job) :
  jobId ≠ "" →
  scheduleJob (Function f) dateToRunOn (Some jobId) metadata s = (Ok job, s1) →
  job = {| Job.jobId := jobId |}
  ∧ initialized s = true
  ∧ jobsCollection s = true
  ∧ Forall (λ x, x !! "jobId" ≠ Some (VStr jobId)) (collection s)
  ∧ s1 = snd (jobSchedule job
                (if useLock (options s)
                 then PrepareCallbackWithlock jobId dateToRunOn f metadata
                 else PrepareCallback jobId dateToRunOn f metadata)
                (dateToRunOn - clock (loop s))
                (set_collection
                   (collection s
                    ++ [jobDocument jobId dateToRunOn metadata (clock (loop s))]) s)).
Proof.
  intros Hj. unfold scheduleJob, bind at 1, requireInitialized.
  destruct (initialized s); [|done].
  unfold bind at 1, requireFunction, pure at 1.
  unfold bind at 1, newJob, bind at 1, gets at 1, Job.new.
  destruct (decide (jobId = "")) as [|_]; [done|].
  unfold bind at 1, pure at 1, pure at 1, bind at 1, Job.getJobId. simpl.
  destruct (storeJobInDB jobId dateToRunOn metadata s) as [[u|e] s'] eqn:Hstore; [|done].
  destruct u.
  apply storeJobInDB_Ok in Hstore as (Hb & -> & Hall).
  unfold wrapCallback, now, prepareCallback, prepareCallbackWithlock, bind, gets, pure.
  simpl. destruct (useLock (options s)); simpl; intros [= <- <-]; done.
Qed.

Lemma Forall_eq_replicate {A : Type} (x : A) (l : list A) :
  Forall (λ y, y = x) l → l = replicate (length l) x.
Proof. induction 1 as [|y l -> _ IH]; simpl; [done|]. by rewrite <- IH. Qed.

Lemma rescheduleJobs_within (s : State) (g : Callee) :
  initialized s = true →
  jobsCollection s = true →
  pending (loop s) = [] →
  callsWithin (λ a, a ∈ find {[ "isActive" := VBool true ]} (collection s)) (calls s)
    (snd (rescheduleJobs g s)).
Proof.
  intros Hi Hb Hp.
  unfold rescheduleJobs, bind at 1, requireInitialized. rewrite Hi.
  unfold bind at 1, getAllActiveJobsFromDB, bind at 1, requireInitialized. rewrite Hi.
  unfold bind at 1, theCollection. rewrite Hb. unfold pure at 1.
  match goal with |- callsWithin ?A ?base (snd (forEach ?F ?jobs s)) =>
    apply (preserves_forEach (keepsWithin A base) F jobs)
  end.
  - intros d Hd. destruct (destructure d) as [[[j t] md]|] eqn:Hdes; frame.
    apply scheduleJobInMemory_within. by rewrite (destructure_argument d md j t).
  - split; [exists []; by rewrite app_nil_r | rewrite Hp; constructor].
Qed.

(** C6, as the code has it.  For a job scheduled with [scheduleJob] in an
    idle process, every call of the user callback, at the first firing and
    at each retry, has the argument [{ jobId, dateToRunOn, ...metadata }]:
    the metadata pairs given at scheduling, unchanged, and [jobId] and
    [dateToRunOn] under the keys the metadata does not define itself,
    nothing else.  After [rescheduleJobs] every call has a whole stored
    active record for argument: the stored metadata together with [jobId],
    [dateToRunOn] and the bookkeeping fields of the record. *)
Theorem callback_argument (s s1 : State) (f : Callback) (dateToRunOn : Z) (jobId : string)
    (metadata : Doc) (job : Job.Job) (sR : State) (g : Callee) :
  pending (loop s) = [] →
  jobId ≠ "" →
  scheduleJob (Function f) dateToRunOn (Some jobId) metadata s = (Ok job, s1) →
  initialized sR = true →
  jobsCollection sR = true →
  pending (loop sR) = [] →
  (∀ n, ∃ k,
     calls (run n s1) = calls s ++ replicate k (callbackArgument jobId dateToRunOn metadata))
  ∧ (∀ key,
       callbackArgument jobId dateToRunOn metadata !! key
       = match metadata !! key with
         | Some v => Some v
         | None =>
             if decide (key = "jobId") then Some (VStr jobId)
             else if decide (key = "dateToRunOn") then Some (VDate dateToRunOn)
             else None
         end)
  ∧ (∀ n, ∃ more,
       calls (run n (snd (rescheduleJobs g sR))) = calls sR ++ more
       ∧ Forall (λ a, a ∈ find {[ "isActive" := VBool true ]} (collection sR)) more).
Proof.
  intros Hp Hj Hs Hi Hb HpR. split; [|split].
  - intros n.
    apply scheduleJob_Ok in Hs as (-> & _ & _ & _ & ->); [|done].
    set (A := λ a, a = callbackArgument jobId dateToRunOn metadata).
    match goal with |- context [run n (snd (jobSchedule ?job ?w ?r ?s0))] =>
      assert (callsWithin A (calls s) (snd (jobSchedule job w r s0))) as Hin
    end.
    { apply jobSchedule_within; [by destruct (useLock (options s))|].
      split; [exists []; by rewrite app_nil_r | simpl; rewrite Hp; constructor]. }
    apply (run_within A (calls s) n) in Hin as [(more & -> & Hmore) _].
    exists (length more). by rewrite <- Forall_eq_replicate.
  - apply callbackArgument_lookup.
  - intros n.
    pose proof (rescheduleJobs_within sR g Hi Hb HpR) as Hin.
    apply (run_within _ (calls sR) n) in Hin as [Hc _]. exact Hc.
Qed.

Lemma callback_argument_example :
  (∀ n, ∃ k,
     calls (run n Scenario.scheduled)
     = calls Scenario.started
       ++ replicate k (callbackArgument "j1" 1500 {[ "op" := VStr "x" ]}))
  ∧ (∀ key,
       callbackArgument "j1" 1500 {[ "op" := VStr "x" ]} !! key
       = match ({[ "op" := VStr "x" ]} : Doc) !! key with
         | Some v => Some v
         | None =>
             if decide (key = "jobId") then Some (VStr "j1")
             else if decide (key = "dateToRunOn") then Some (VDate 1500)
             else None
         end)
  ∧ (∀ n, ∃ more,
       calls (run n (snd (rescheduleJobs (Function Scenario.succeeds) Scenario.restarted)))
       = calls Scenario.restarted ++ more
       ∧ Forall (λ a, a ∈ find {[ "isActive" := VBool true ]}
                          (collection Scenario.restarted)) more).
Proof.
  apply (callback_argument Scenario.started Scenario.scheduled Scenario.alwaysFails 1500
           "j1" {[ "op" := VStr "x" ]} {| Job.jobId := "j1" |} Scenario.restarted
           (Function Scenario.succeeds)).
  - reflexivity.
  - discriminate.
  - vm_compute. reflexivity.
  - reflexivity.
  - reflexivity.
  - reflexivity.
Defined.

(** After rehydration the user callback receives the whole record, with
    [isLocked], [isActive] and [createdAt], not only the metadata with
    [jobId] and [dateToRunOn]. *)
Lemma rehydrated_argument_is_the_record :
  calls (run 1 Scenario.rehydrated) = [Scenario.record]
  ∧ Scenario.record !! "isActive" = Some (VBool true)
  ∧ callbackArgument "j1" 1500 {[ "op" := VStr "x" ]} !! "isActive" = None
  ∧ calls (run 1 Scenario.rehydrated) ≠ [callbackArgument "j1" 1500 {[ "op" := VStr "x" ]}].
Proof.
  assert (calls (run 1 Scenario.rehydrated) = [Scenario.record]) as Hcalls.
  { vm_compute. reflexivity. }
  split; [exact Hcalls|]. split; [vm_compute; reflexivity|].
  split; [vm_compute; reflexivity|].
  rewrite Hcalls. intros H.
  apply (f_equal (λ l : list Doc, head l ≫= (.!! "isActive"))) in H.
  vm_compute in H. discriminate H.
Qed.

End CallbackArguments.

(** ** Metadata that names a job field *)

Section MetadataShadowing.
Import Timers Mongo Scheduler.





End MetadataShadowing.

(** ** Claiming a firing *)

Section Claim.
Import Timers Mongo Scheduler.

Lemma updateOne_counts filter update (c : Collection) :
  let r := fst (updateOne filter update c) in
  (matchedCount r = 0 ∧ modifiedCount r = 0)
  ∨ (matchedCount r = 1 ∧ (modifiedCount r = 0 ∨ modifiedCount r = 1)).
Proof.
  induction c as [|d c IH]; simpl; [by left|].
  destruct (matches filter d); simpl.
  - right. split; [done|]. case_decide; auto.
  - by destruct (updateOne filter update c).
Qed.

Lemma acquireLock_eval (s : State) (jobId : string) (dateToRunOn : Z) :
  jobsCollection s = true →
  acquireLock jobId dateToRunOn s
  = (Ok (and_then
           (matchedCount (fst (updateOne (claimFilter jobId dateToRunOn) claimUpdate
                                 (collection s))))
           (modifiedCount (fst (updateOne (claimFilter jobId dateToRunOn) claimUpdate
                                  (collection s))))),
     set_collection
       (snd (updateOne (claimFilter jobId dateToRunOn) claimUpdate (collection s))) s).
Proof.
  intros Hb. unfold acquireLock, bind, theCollection, modify, pure. rewrite Hb.
  by destruct (updateOne _ _ (collection s)).
Qed.

(** Under the unique index the record of a job is the first and only
    document with its id. *)
Lemma unique_record_split (c : Collection) (d : Doc) (v : Value) :
  uniqueIndex c → d ∈ c → d !! "jobId" = Some v →
  ∃ c1 c2, c = c1 ++ d :: c2
    ∧ Forall (λ x, x !! "jobId" ≠ Some v) c1
    ∧ Forall (λ x, x !! "jobId" ≠ Some v) c2.
Proof.
  intros Hu Hd Hv. apply list_elem_of_split in Hd as (c1 & c2 & ->).
  exists c1, c2. split; [done|]. unfold uniqueIndex in Hu.
  rewrite fmap_app, fmap_cons in Hu. apply NoDup_app in Hu as (_ & Hdisj & Hc2).
  apply NoDup_cons in Hc2 as [Hnotin _].
  split; apply Forall_forall; intros x Hx Hxv.
  - apply (Hdisj (indexKey x)); [by apply list_elem_of_fmap_2|].
    unfold indexKey at 1. rewrite Hxv, <- Hv. left.
  - apply Hnotin. unfold indexKey at 1. rewrite Hv, <- Hxv. by apply list_elem_of_fmap_2.
Qed.

Lemma claim_no_match (j : string) (date : Z) (c : Collection) :
  Forall (λ x, x !! "jobId" ≠ Some (VStr j)) c →
  Forall (λ x, matches (claimFilter j date) x = false) c.
Proof.
  intros H. eapply Forall_impl; [exact H|].
  intros x Hx. destruct (matches _ x) eqn:Hm; [|done].
  apply matches_claim in Hm as (Hj & _). done.
Qed.

(** C2.  [acquireLock] reports success iff its conditional update matched
    and modified one record.  Of two processes that claim the same active,
    unlocked record with the matching due time, the first to reach the
    store succeeds and the other fails; the firing of the one that failed
    does not call the user callback, leaves the store as it is, leaves no
    handle under the id in the timer table and arms nothing, without
    throwing. *)
Theorem claim_is_exclusive (s sA sB : State) (this : Job.Job) (jobId : string)
    (dateToRunOn : Z) (f : Callback) (metadata d : Doc) :
  jobsCollection s = true →
  jobsCollection sA = true →
  jobsCollection sB = true →
  collection sB = collection sA →
  uniqueIndex (collection sA) →
  d ∈ collection sA →
  d !! "jobId" = Some (VStr jobId) →
  d !! "isActive" = Some (VBool true) →
  d !! "dateToRunOn" = Some (VDate dateToRunOn) →
  d !! "isLocked" = Some (VBool false) →
  Job.jobId this = jobId →
  (∃ r s',
     acquireLock jobId dateToRunOn s = (Ok r, s')
     ∧ (truthy r = true
        ↔ matchedCount (fst (updateOne (claimFilter jobId dateToRunOn) claimUpdate
                                (collection s))) = 1
          ∧ modifiedCount (fst (updateOne (claimFilter jobId dateToRunOn) claimUpdate
                                  (collection s))) = 1))
  ∧ (∃ rA sA' rB sB' sB'',
       acquireLock jobId dateToRunOn sA = (Ok rA, sA')
       ∧ acquireLock jobId dateToRunOn (set_collection (collection sA') sB) = (Ok rB, sB')
       ∧ truthy rA = true
       ∧ truthy rB = false
       ∧ fire this (PrepareCallbackWithlock jobId dateToRunOn f metadata)
           (set_collection (collection sA') sB) = (Ok tt, sB'')
       ∧ calls sB'' = calls sB
       ∧ collection sB'' = collection sA'
       ∧ Job.getTimeoutId (scheduledJobs sB'') jobId = None
       ∧ pending (loop sB'') = pending (loop sB)).
Proof.
  intros Hb HbA HbB Hc Hu Hd Hj Ha Ht Hl Hthis. split.
  - eexists _, _. split; [by apply acquireLock_eval|].
    pose proof (updateOne_counts (claimFilter jobId dateToRunOn) claimUpdate (collection s))
      as Hcounts. simpl in Hcounts.
    unfold truthy, and_then. rewrite bool_decide_eq_true.
    destruct Hcounts as [[-> ->] | [-> [-> | ->]]]; case_decide; split; try done; lia.
  - destruct (unique_record_split _ d _ Hu Hd Hj) as (c1 & c2 & Hsplit & Hc1 & Hc2).
    assert (matches (claimFilter jobId dateToRunOn) d = true) as Hm
      by (by apply matches_claim).
    assert (matches (claimFilter jobId dateToRunOn) (claimUpdate d) = true) as Hm'.
    { apply matches_claim. unfold claimUpdate. by simplify_map_eq. }
    assert (claimUpdate d ≠ d) as Hne.
    { intros Heq. apply (f_equal (λ m : Doc, m !! "isLocked")) in Heq.
      unfold claimUpdate in Heq. rewrite lookup_insert_eq, Hl in Heq. discriminate Heq. }
    assert (claimUpdate (claimUpdate d) = claimUpdate d) as Hidem
      by apply insert_insert_eq.
    pose proof (updateOne_first (claimFilter jobId dateToRunOn) claimUpdate c1 c2 d
                  (claim_no_match _ _ _ Hc1) Hm) as H1.
    pose proof (updateOne_first (claimFilter jobId dateToRunOn) claimUpdate c1 c2
                  (claimUpdate d) (claim_no_match _ _ _ Hc1) Hm') as H2.
    rewrite decide_False in H1 by done. rewrite decide_True in H2 by done.
    rewrite Hidem in H2.
    assert (acquireLock jobId dateToRunOn sA
            = (Ok 1, set_collection (c1 ++ claimUpdate d :: c2) sA)) as HA.
    { rewrite acquireLock_eval by done. by rewrite Hsplit, H1. }
    assert (acquireLock jobId dateToRunOn (set_collection (c1 ++ claimUpdate d :: c2) sB)
            = (Ok 0, set_collection (c1 ++ claimUpdate d :: c2) sB)) as HB.
    { rewrite acquireLock_eval by done. simpl. rewrite H2. by destruct sB. }
    eexists 1, _, 0, _, _. split; [exact HA|]. simpl. split; [exact HB|].
    split; [done|]. split; [done|].
    unfold fire, bind at 1, modify at 1. unfold bind at 1.
    match goal with |- context [acquireLock jobId dateToRunOn ?s0] =>
      assert (acquireLock jobId dateToRunOn s0
              = (Ok 0, s0)) as ->
    end.
    { rewrite acquireLock_eval by done. simpl. rewrite H2. by destruct sB. }
    unfold timeoutResumes, cancelJobFromMemory, bind, gets, modify, pure,
      Job.getTimeoutId. simpl. rewrite Hthis, lookup_insert_eq. simpl.
    split; [reflexivity|]. simpl. rewrite lookup_insert_eq. done.
Qed.

Lemma claim_is_exclusive_example :
  (∃ r s',
     acquireLock "j1" 1500 Scenario.started = (Ok r, s')
     ∧ (truthy r = true
        ↔ matchedCount (fst (updateOne (claimFilter "j1" 1500) claimUpdate
                                (collection Scenario.started))) = 1
          ∧ modifiedCount (fst (updateOne (claimFilter "j1" 1500) claimUpdate
                                  (collection Scenario.started))) = 1))
  ∧ (∃ rA sA' rB sB' sB'',
       acquireLock "j1" 1500 Scenario.scheduled = (Ok rA, sA')
       ∧ acquireLock "j1" 1500 (set_collection (collection sA') Scenario.rehydrated)
         = (Ok rB, sB')
       ∧ truthy rA = true
       ∧ truthy rB = false
       ∧ fire {| Job.jobId := "j1" |}
           (PrepareCallbackWithlock "j1" 1500 Scenario.succeeds {[ "op" := VStr "x" ]})
           (set_collection (collection sA') Scenario.rehydrated) = (Ok tt, sB'')
       ∧ calls sB'' = calls Scenario.rehydrated
       ∧ collection sB'' = collection sA'
       ∧ Job.getTimeoutId (scheduledJobs sB'') "j1" = None
       ∧ pending (loop sB'') = pending (loop Scenario.rehydrated)).
Proof.
  apply (claim_is_exclusive Scenario.started Scenario.scheduled Scenario.rehydrated
           {| Job.jobId := "j1" |} "j1" 1500 Scenario.succeeds {[ "op" := VStr "x" ]}
           Scenario.record).
  - reflexivity.
  - reflexivity.
  - reflexivity.
  - vm_compute. reflexivity.
  - vm_compute. repeat constructor; set_solver.
  - vm_compute. left.
  - vm_compute. reflexivity.
  - vm_compute. reflexivity.
  - vm_compute. reflexivity.
  - vm_compute. reflexivity.
  - reflexivity.
Defined.

End Claim.

(** ** Cancelling *)

Section Cancel.
Import Timers Mongo Scheduler.

(** The id [cancelJob] works on. *)
Lemma cancelJob_eval (s : State) (ref : JobRef) :
  jobsCollection s = true →
  let id := match ref with ByJob job => Job.getJobId job | ById id => id end in
  cancelJob ref s
  = (Ok tt,
     set_collection (deleteOne {[ "jobId" := VStr id ]} (collection s))
       (set_scheduledJobs (delete id (scheduledJobs s))
          (set_loop (clearTimeout (Job.getTimeoutId (scheduledJobs s) id) (loop s)) s))).
Proof.
  intros Hb. destruct s as [c jc i sj o rc l uu dr inv cl]. simpl in Hb. subst jc.
  destruct ref as [id | job]; simpl.
  - unfold cancelJob, deleteJobFromDB, deleteScheduled, doClearTimeout, theCollection,
      bind, gets, modify, pure. simpl.
    destruct (bool_decide (is_Some (sj !! id))) eqn:Hpresent; simpl; [done|].
    apply bool_decide_eq_false in Hpresent. apply eq_None_not_Some in Hpresent.
    unfold Job.getTimeoutId. rewrite Hpresent. simpl. by destruct l.
  - unfold cancelJob, deleteJobFromDB, deleteScheduled, doClearTimeout, theCollection,
      Job.cancelJob, Job.getJobId, bind, gets, modify, pure. by simpl.
Qed.

(** C8.  Once [cancelJob] has run for an id, the timer table has no entry
    and the store has no record for it, and running [cancelJob] again for
    the same id returns normally and leaves the whole state, timer table
    and store included, as the first call left it. *)
Theorem cancelJob_idempotent (s : State) (ref : JobRef) :
  jobsCollection s = true →
  uniqueIndex (collection s) →
  ∃ s1,
    cancelJob ref s = (Ok tt, s1)
    ∧ cancelJob ref s1 = (Ok tt, s1)
    ∧ scheduledJobs s1
      !! match ref with ByJob job => Job.getJobId job | ById id => id end = None
    ∧ Forall (λ x, x !! "jobId"
                   ≠ Some (VStr match ref with
                                | ByJob job => Job.getJobId job
                                | ById id => id
                                end))
        (collection s1).
Proof.
  intros Hb Hu. eexists. split; [by apply cancelJob_eval|].
  set (id := match ref with ByJob job => Job.getJobId job | ById id => id end).
  pose proof (deleteOne_unique (VStr id) (collection s) Hu) as Hgone.
  split; [|split].
  - rewrite cancelJob_eval by done. fold id. simpl.
    unfold Job.getTimeoutId. rewrite lookup_delete_eq, delete_delete_eq. simpl.
    rewrite (deleteOne_none _ _ Hgone). by destruct s, loop0.
  - simpl. apply lookup_delete_eq.
  - simpl. eapply Forall_impl; [exact Hgone|]. intros x Hx. by apply matches_jobId_false.
Qed.

Lemma cancelJob_idempotent_example :
  ∃ s1,
    cancelJob (ById "j1") Scenario.scheduled = (Ok tt, s1)
    ∧ cancelJob (ById "j1") s1 = (Ok tt, s1)
    ∧ scheduledJobs s1 !! "j1" = None
    ∧ Forall (λ x, x !! "jobId" ≠ Some (VStr "j1")) (collection s1).
Proof.
  apply (cancelJob_idempotent Scenario.scheduled (ById "j1")).
  - reflexivity.
  - vm_compute. repeat constructor; set_solver.
Defined.

End Cancel.

(** ** Handling a failure *)

Section HandleRetries.
Import Timers Mongo Scheduler.

Lemma updateRetryThresholdInDB_Ok (s s1 : State) (jobId error : string) :
  updateRetryThresholdInDB jobId error s = (Ok tt, s1) →
  jobsCollection s = true
  ∧ ∃ c', updateOnePipeline {[ "jobId" := VStr jobId ]}
            (retryPipeline error (retryCount (options s)) (clock (loop s))) (collection s)
          = Some c'
        ∧ s1 = set_collection c' s.
Proof.
  unfold updateRetryThresholdInDB, bind, theCollection, now, gets, modify, throw.
  destruct (jobsCollection s); [|done]. destruct (updateOnePipeline _ _ _) as [c'|]; [|done].
  intros [= <-]. split; [done|]. by exists c'.
Qed.

(** The process-local count after one more failure. *)
Definition localCount (s : State) (jobId : string) : Z :=
  default 0 (retriedCount s !! jobId) + 1.

Lemma checkIfRetryExceeded_eval (s : State) (jobId : string) :
  checkIfRetryExceeded jobId s
  = (Ok (retryCount (options s) <? localCount s jobId),
     set_retriedCount (<[jobId := localCount s jobId]> (retriedCount s)) s).
Proof.
  unfold checkIfRetryExceeded, localCount, bind, gets, modify.
  destruct s as [c jc i sj o rc l uu dr inv cl]. simpl.
  destruct (rc !! jobId) as [[|p|p]|] eqn:Hrc; simpl.
  - by rewrite alter_insert_eq, lookup_insert_eq.
  - rewrite lookup_alter_eq, Hrc. simpl. do 3 f_equal.
    apply map_eq. intros k. destruct (decide (k = jobId)) as [->|].
    + by rewrite lookup_alter_eq, lookup_insert_eq, Hrc.
    + by rewrite lookup_alter_ne, lookup_insert_ne.
  - rewrite lookup_alter_eq, Hrc. simpl. do 3 f_equal.
    apply map_eq. intros k. destruct (decide (k = jobId)) as [->|].
    + by rewrite lookup_alter_eq, lookup_insert_eq, Hrc.
    + by rewrite lookup_alter_ne, lookup_insert_ne.
  - by rewrite alter_insert_eq, lookup_insert_eq.
Qed.

(** The callback [wrapCallback] builds under the options of [s]. *)
Definition wrapped (s : State) (jobId : string) (dateToRunOn : Z) (f : Callback)
    (metadata : Doc) : Wrapped :=
  if useLock (options s) then PrepareCallbackWithlock jobId dateToRunOn f metadata
  else PrepareCallback jobId dateToRunOn f metadata.

Lemma handleRetries_eval (s s1 : State) (jobId : string) (dateToRunOn : Z) (f : Callback)
    (error : string) (metadata : Doc) :
  jobId ≠ "" →
  updateRetryThresholdInDB jobId error s = (Ok tt, s1) →
  handleRetries jobId dateToRunOn f error metadata s
  = (Ok tt,
     let s2 := set_retriedCount (<[jobId := localCount s jobId]> (retriedCount s)) s1 in
     if retryCount (options s) <? localCount s jobId then s2
     else snd (jobSchedule {| Job.jobId := jobId |} (wrapped s jobId dateToRunOn f metadata)
                 (retryWindowInSeconds (options s) * 1000) s2)).
Proof.
  intros Hj Hup. unfold handleRetries, bind at 1. rewrite Hup.
  apply updateRetryThresholdInDB_Ok in Hup as (_ & c' & _ & ->).
  unfold bind at 1. rewrite checkIfRetryExceeded_eval.
  change (localCount (set_collection c' s) jobId) with (localCount s jobId). simpl.
  destruct (retryCount (options s) <? localCount s jobId); [done|].
  unfold newJob, wrapCallback, wrapped, prepareCallback, prepareCallbackWithlock,
    bind, gets, modify, pure, Job.new.
  destruct (decide (jobId = "")) as [|_]; [done|]. simpl.
  by destruct (useLock (options s)).
Qed.

End HandleRetries.

(** * The other operations *)

(** ** [init] *)

Section Init.
Import Timers Mongo Scheduler Invariants.




(** An [init] that throws, for want of an address or because the unique
    index cannot be built, leaves [initialized], the options, the store
    and the timers as they were: a scheduler that was not initialised
    still is not, and [scheduleJob] keeps refusing to work. *)
Theorem failed_init_changes_nothing (s s' : State) (config : Config)
    (opts : option PartialOptions) (e : Exception) (callback : Callee) (dateToRunOn : Z)
    (jobId : option string) (metadata : Doc) :
  init config opts s = (Thrown e, s') →
  initialized s' = initialized s
  ∧ options s' = options s
  ∧ collection s' = collection s
  ∧ loop s' = loop s
  ∧ scheduledJobs s' = scheduledJobs s
  ∧ (config = DatabaseOptions "" → e = Error "Mongo URI not provided" ∧ s' = s)
  ∧ (initialized s = false →
     scheduleJob callback dateToRunOn jobId metadata s'
     = (Thrown (Error "Scheduler not Initialised"), s')).
Proof.
  unfold init, initDB, theCollection, bind, modify, pure, throw.
  assert (∀ s0, initialized s0 = initialized s → initialized s = false →
            scheduleJob callback dateToRunOn jobId metadata s0
            = (Thrown (Error "Scheduler not Initialised"), s0)) as Hrefuse.
  { intros s0 H0 Hi. unfold scheduleJob, bind, requireInitialized. by rewrite H0, Hi. }
  destruct config as [|address]; simpl.
  - case_decide; [done|]. intros [= <- <-]. simpl.
    do 5 (split; [done|]). split; [done|]. by apply Hrefuse.
  - destruct (decide (address = "")) as [->|Ha]; simpl.
    + intros [= <- <-]. do 5 (split; [done|]). split; [done|]. by apply Hrefuse.
    + case_decide; [done|]. intros [= <- <-]. simpl.
      do 5 (split; [done|]). split; [congruence|]. by apply Hrefuse.
Qed.

Lemma failed_init_changes_nothing_example :
  initialized (boot [] Scenario.uuids 1000) = initialized (boot [] Scenario.uuids 1000)
  ∧ options (boot [] Scenario.uuids 1000) = options (boot [] Scenario.uuids 1000)
  ∧ collection (boot [] Scenario.uuids 1000) = collection (boot [] Scenario.uuids 1000)
  ∧ loop (boot [] Scenario.uuids 1000) = loop (boot [] Scenario.uuids 1000)
  ∧ scheduledJobs (boot [] Scenario.uuids 1000) = scheduledJobs (boot [] Scenario.uuids 1000)
  ∧ (DatabaseOptions "" = DatabaseOptions "" →
     Error "Mongo URI not provided" = Error "Mongo URI not provided"
     ∧ boot [] Scenario.uuids 1000 = boot [] Scenario.uuids 1000)
  ∧ (initialized (boot [] Scenario.uuids 1000) = false →
     scheduleJob (Function Scenario.succeeds) 1500 None ∅ (boot [] Scenario.uuids 1000)
     = (Thrown (Error "Scheduler not Initialised"), boot [] Scenario.uuids 1000)).
Proof.
  apply (failed_init_changes_nothing (boot [] Scenario.uuids 1000)
           (boot [] Scenario.uuids 1000) (DatabaseOptions "") None
           (Error "Mongo URI not provided") (Function Scenario.succeeds) 1500 None ∅).
  reflexivity.
Defined.

End Init.

(** ** [getAllActiveJobsFromDB] *)

Section ActiveJobs.
Import Timers Mongo Scheduler Invariants.

Lemma matches_isActive (d : Doc) :
  matches {[ "isActive" := VBool true ]} d = true ↔ d !! "isActive" = Some (VBool true).
Proof.
  unfold matches. rewrite bool_decide_eq_true. apply map_singleton_subseteq_l.
Qed.

Lemma getAllActiveJobsFromDB_eval (s : State) :
  initialized s = true →
  jobsCollection s = true →
  getAllActiveJobsFromDB s = (Ok (find {[ "isActive" := VBool true ]} (collection s)), s).
Proof.
  intros Hi Hb. unfold getAllActiveJobsFromDB, requireInitialized, theCollection, bind, pure.
  by rewrite Hi, Hb.
Qed.

(** [getAllActiveJobsFromDB] changes nothing and returns, in the order of
    the store, exactly the records whose [isActive] is true: a record that
    was abandoned ([isActive] false) or has no such field is left out. *)
Theorem active_jobs_are_the_active_records (s : State) :
  initialized s = true →
  jobsCollection s = true →
  ∃ jobs,
    getAllActiveJobsFromDB s = (Ok jobs, s)
    ∧ (∀ d, d ∈ jobs ↔ d ∈ collection s ∧ d !! "isActive" = Some (VBool true))
    ∧ jobs `sublist_of` collection s.
Proof.
  intros Hi Hb. eexists. split; [by apply getAllActiveJobsFromDB_eval|]. split.
  - intros d. unfold find. rewrite !list_elem_of_In, List.filter_In.
    by rewrite matches_isActive.
  - unfold find. induction (collection s) as [|d c IH]; simpl; [constructor|].
    destruct (matches _ d); [by apply sublist_skip || by constructor | by apply sublist_cons].
Qed.

Lemma active_jobs_are_the_active_records_example :
  ∃ jobs,
    getAllActiveJobsFromDB (run 4 Scenario.scheduled) = (Ok jobs, run 4 Scenario.scheduled)
    ∧ (∀ d, d ∈ jobs
            ↔ d ∈ collection (run 4 Scenario.scheduled)
              ∧ d !! "isActive" = Some (VBool true))
    ∧ jobs `sublist_of` collection (run 4 Scenario.scheduled).
Proof.
  apply (active_jobs_are_the_active_records (run 4 Scenario.scheduled)).
  - vm_compute. reflexivity.
  - vm_compute. reflexivity.
Defined.

End ActiveJobs.

(** ** Scheduling *)

Section Scheduling.
Import Timers Mongo Scheduler Invariants.

Lemma scheduleJob_armed {C : Type} (this : Job.Job) (callback : C) (timeRemaining : Z)
    (sj : Job.ScheduledJobs) (l : EventLoop (Job.Closure C)) :
  Job.scheduleJob this callback timeRemaining sj l
  = (<[Job.jobId this := Some (nextHandle l)]> sj,
     {| clock := clock l; nextHandle := S (nextHandle l);
        pending := pending l ++ [armed this callback timeRemaining l] |}).
Proof.
  unfold Job.scheduleJob, armed, firstWait, setTimeout.
  destruct (Job.MAX_TIME <? timeRemaining); [|done].
  by replace (effectiveDelay Job.MAX_TIME) with Job.MAX_TIME by done.
Qed.

Lemma jobSchedule_eval (s : State) (job : Job.Job) (w : Wrapped) (timeRemaining : Z) :
  jobSchedule job w timeRemaining s
  = (Ok tt,
     set_loop {| clock := clock (loop s); nextHandle := S (nextHandle (loop s));
                 pending := pending (loop s) ++ [armed job w timeRemaining (loop s)] |}
       (set_scheduledJobs (<[Job.jobId job := Some (nextHandle (loop s))]> (scheduledJobs s))
          s)).
Proof. unfold jobSchedule, modify. by rewrite scheduleJob_armed. Qed.














End Scheduling.

(** ** Claims that fail, and claiming again *)

Section ClaimAgain.
Import Timers Mongo Scheduler Invariants.

Lemma set_collection_same (s : State) : set_collection (collection s) s = s.
Proof. by destruct s. Qed.

(** [acquireLock] reports failure and leaves the store as it is when no
    stored record has at once the id, [isActive] true and the due time it
    is called with: the record was deleted or cancelled, was abandoned, or
    was rescheduled to another due time since the timeout was armed. *)
Theorem acquireLock_without_match (s : State) (jobId : string) (dateToRunOn : Z) :
  jobsCollection s = true →
  Forall (λ d, ¬ (d !! "jobId" = Some (VStr jobId)
                  ∧ d !! "isActive" = Some (VBool true)
                  ∧ d !! "dateToRunOn" = Some (VDate dateToRunOn))) (collection s) →
  acquireLock jobId dateToRunOn s = (Ok 0, s) ∧ truthy 0 = false.
Proof.
  intros Hb Hnone. split; [|done]. rewrite acquireLock_eval by done.
  rewrite updateOne_none; [simpl; by rewrite set_collection_same|].
  eapply Forall_impl; [exact Hnone|]. intros d Hd.
  destruct (matches _ d) eqn:Hm; [|done]. by apply matches_claim in Hm.
Qed.

Lemma acquireLock_without_match_example :
  acquireLock "j1" 1500 (run 4 Scenario.scheduled) = (Ok 0, run 4 Scenario.scheduled)
  ∧ truthy 0 = false.
Proof.
  apply (acquireLock_without_match (run 4 Scenario.scheduled) "j1" 1500).
  - vm_compute. reflexivity.
  - vm_compute. repeat constructor. intros (_ & H & _). discriminate H.
Defined.

(** A record whose [isLocked] is already true cannot be claimed: the
    update matches it and modifies nothing, [acquireLock] reports failure
    and the store, the flag included, stays as it is.  Only the failure
    transition resets the flag. *)
Theorem locked_record_is_not_claimed (s : State) (jobId : string) (dateToRunOn : Z)
    (d : Doc) :
  jobsCollection s = true →
  uniqueIndex (collection s) →
  d ∈ collection s →
  d !! "jobId" = Some (VStr jobId) →
  d !! "isLocked" = Some (VBool true) →
  ∃ r, acquireLock jobId dateToRunOn s = (Ok r, s) ∧ truthy r = false.
Proof.
  intros Hb Hu Hd Hj Hl.
  destruct (unique_record_split _ d _ Hu Hd Hj) as (c1 & c2 & Hsplit & Hc1 & Hc2).
  rewrite acquireLock_eval by done. rewrite Hsplit.
  destruct (matches (claimFilter jobId dateToRunOn) d) eqn:Hm.
  - rewrite (updateOne_first _ _ c1 c2 d (claim_no_match _ _ _ Hc1) Hm).
    assert (claimUpdate d = d) as Hsame by (by apply insert_id).
    rewrite decide_True by done. rewrite Hsame. simpl. exists 0.
    rewrite <- Hsplit. by rewrite set_collection_same.
  - rewrite updateOne_none.
    + simpl. exists 0. rewrite <- Hsplit. by rewrite set_collection_same.
    + apply Forall_app. split; [by apply claim_no_match|].
      constructor; [done|]. by apply claim_no_match.
Qed.

Lemma locked_record_is_not_claimed_example :
  ∃ r, acquireLock "j1" 1500 (snd (acquireLock "j1" 1500 Scenario.scheduled))
       = (Ok r, snd (acquireLock "j1" 1500 Scenario.scheduled))
       ∧ truthy r = false.
Proof.
  apply (locked_record_is_not_claimed (snd (acquireLock "j1" 1500 Scenario.scheduled))
           "j1" 1500 (claimUpdate Scenario.record)).
  - reflexivity.
  - vm_compute. repeat constructor; set_solver.
  - vm_compute. left.
  - vm_compute. reflexivity.
  - vm_compute. reflexivity.
Defined.

(** In lock mode a failure hands the record back: after a successful
    claim, the failure transition unlocks the record, and the same claim
    succeeds again as long as the record was not abandoned; once the
    transition has set [isActive] to false, the claim fails and the store
    stays as the transition left it. *)
Theorem failure_hands_the_record_back (s : State) (jobId error : string)
    (dateToRunOn : Z) (d : Doc) (e r : Z) :
  jobsCollection s = true →
  uniqueIndex (collection s) →
  d ∈ collection s →
  d !! "jobId" = Some (VStr jobId) →
  d !! "isActive" = Some (VBool true) →
  d !! "dateToRunOn" = Some (VDate dateToRunOn) →
  d !! "isLocked" = Some (VBool false) →
  numberOr 0 (d !! "errorCount") = Some e →
  numberOr (-1) (d !! "retriedCount") = Some r →
  ∃ s1 s2,
    acquireLock jobId dateToRunOn s = (Ok 1, s1)
    ∧ updateRetryThresholdInDB jobId error s1 = (Ok tt, s2)
    ∧ (r + 1 < retryCount (options s) →
       ∃ s3, acquireLock jobId dateToRunOn s2 = (Ok 1, s3))
    ∧ (retryCount (options s) ≤ r + 1 →
       acquireLock jobId dateToRunOn s2 = (Ok 0, s2)).
Proof.
  intros Hb Hu Hd Hj Ha Ht Hl He Hr.
  destruct (unique_record_split _ d _ Hu Hd Hj) as (c1 & c2 & Hsplit & Hc1 & Hc2).
  assert (matches (claimFilter jobId dateToRunOn) d = true) as Hm
    by (by apply matches_claim).
  assert (claimUpdate d ≠ d) as Hne.
  { intros Heq. apply (f_equal (λ m : Doc, m !! "isLocked")) in Heq.
    unfold claimUpdate in Heq. rewrite lookup_insert_eq, Hl in Heq. discriminate Heq. }
  pose proof (updateOne_first (claimFilter jobId dateToRunOn) claimUpdate c1 c2 d
                (claim_no_match _ _ _ Hc1) Hm) as H1.
  rewrite decide_False in H1 by done.
  set (s1 := set_collection (c1 ++ claimUpdate d :: c2) s).
  assert (acquireLock jobId dateToRunOn s = (Ok 1, s1)) as HA.
  { rewrite acquireLock_eval by done. by rewrite Hsplit, H1. }
  destruct (retryPipeline_spec error (retryCount (options s)) (clock (loop s))
              (claimUpdate d) e r) as (d' & Hp & _ & _ & Hl' & _ & _ & Hoff & Hon & Hother).
  { unfold claimUpdate. by rewrite lookup_insert_ne. }
  { unfold claimUpdate. by rewrite lookup_insert_ne. }
  set (s2 := set_collection (c1 ++ d' :: c2) s1).
  assert (updateRetryThresholdInDB jobId error s1 = (Ok tt, s2)) as HU.
  { apply (updateRetryThresholdInDB_first s1 jobId error c1 c2 (claimUpdate d) d');
      try done. unfold claimUpdate. by rewrite lookup_insert_ne. }
  assert (d' !! "jobId" = Some (VStr jobId)) as Hj'.
  { rewrite Hother; [unfold claimUpdate; by rewrite lookup_insert_ne|].
    unfold bookkeeping. compute_done. }
  assert (d' !! "dateToRunOn" = Some (VDate dateToRunOn)) as Ht'.
  { rewrite Hother; [unfold claimUpdate; by rewrite lookup_insert_ne|].
    unfold bookkeeping. compute_done. }
  exists s1, s2. split; [exact HA|]. split; [exact HU|]. split.
  - intros Hlt. eexists. rewrite acquireLock_eval by done. simpl.
    assert (matches (claimFilter jobId dateToRunOn) d' = true) as Hm'.
    { apply matches_claim. split; [done|]. split; [|done].
      rewrite Hon by done. unfold claimUpdate. by rewrite lookup_insert_ne. }
    rewrite (updateOne_first _ _ c1 c2 d' (claim_no_match _ _ _ Hc1) Hm').
    rewrite decide_False; [reflexivity|].
    intros Heq. apply (f_equal (λ m : Doc, m !! "isLocked")) in Heq.
    unfold claimUpdate in Heq. rewrite lookup_insert_eq, Hl' in Heq. discriminate Heq.
  - intros Hge.
    apply (acquireLock_without_match s2 jobId dateToRunOn); [done|]. simpl.
    apply Forall_app. split.
    + eapply Forall_impl; [exact Hc1|]. intros x Hx (Hxj & _). done.
    + constructor.
      * intros (_ & Hact & _). rewrite Hoff in Hact by done. discriminate Hact.
      * eapply Forall_impl; [exact Hc2|]. intros x Hx (Hxj & _). done.
Qed.

Lemma failure_hands_the_record_back_example :
  ∃ s1 s2,
    acquireLock "j1" 1500 Scenario.scheduled = (Ok 1, s1)
    ∧ updateRetryThresholdInDB "j1" "boom" s1 = (Ok tt, s2)
    ∧ (-1 + 1 < retryCount (options Scenario.scheduled) →
       ∃ s3, acquireLock "j1" 1500 s2 = (Ok 1, s3))
    ∧ (retryCount (options Scenario.scheduled) ≤ -1 + 1 →
       acquireLock "j1" 1500 s2 = (Ok 0, s2)).
Proof.
  apply (failure_hands_the_record_back Scenario.scheduled "j1" "boom" 1500
           Scenario.record 0 (-1)).
  - reflexivity.
  - vm_compute. repeat constructor; set_solver.
  - vm_compute. left.
  - vm_compute. reflexivity.
  - vm_compute. reflexivity.
  - vm_compute. reflexivity.
  - vm_compute. reflexivity.
  - vm_compute. reflexivity.
  - vm_compute. reflexivity.
Defined.

End ClaimAgain.

(** ** A firing that succeeds *)

Section Success.
Import Timers Mongo Scheduler Invariants.

#[local] Arguments settle : simpl never.

Lemma deleteOne_first filter (c1 c2 : Collection) (d : Doc) :
  Forall (λ x, matches filter x = false) c1 →
  matches filter d = true →
  deleteOne filter (c1 ++ d :: c2) = c1 ++ c2.
Proof.
  intros Hc1 Hd. induction Hc1 as [|x c1 Hx _ IH]; simpl.
  - by rewrite Hd.
  - by rewrite Hx, IH.
Qed.

Lemma jobId_no_match (j : string) (c : Collection) :
  Forall (λ x, x !! "jobId" ≠ Some (VStr j)) c →
  Forall (λ x, matches {[ "jobId" := VStr j ]} x = false) c.
Proof.
  intros H. eapply Forall_impl; [exact H|]. intros x Hx. by apply matches_jobId_false.
Qed.

Lemma forgetRetriedCount_localCount (s : State) (jobId : string) :
  ∃ s', forgetRetriedCount jobId s = (Ok tt, s')
    ∧ localCount s' jobId = 1
    ∧ collection s' = collection s ∧ loop s' = loop s
    ∧ scheduledJobs s' = scheduledJobs s ∧ calls s' = calls s.
Proof.
  unfold forgetRetriedCount, modify, localCount. eexists. split; [reflexivity|].
  destruct (retriedCount s !! jobId) as [[|p|p]|] eqn:Hrc; simpl;
    rewrite ?Hrc, ?lookup_delete_eq; done.
Qed.

(** When the user callback resolves, the firing ends the job, with or
    without lock: the callback was called once with its argument, the
    record of the job is deleted from the store and the other records
    stay, the process-local retry count of the id starts over, no timeout
    is armed and the timer table holds no handle for the job. *)
Theorem successful_firing_completes (s : State) (this : Job.Job) (w : Wrapped)
    (jobId : string) (dateToRunOn : Z) (f : Callback) (metadata d : Doc)
    (c1 c2 : Collection) :
  jobsCollection s = true →
  collection s = c1 ++ d :: c2 →
  Forall (λ x, x !! "jobId" ≠ Some (VStr jobId)) c1 →
  d !! "jobId" = Some (VStr jobId) →
  d !! "isActive" = Some (VBool true) →
  d !! "dateToRunOn" = Some (VDate dateToRunOn) →
  d !! "isLocked" = Some (VBool false) →
  w = PrepareCallback jobId dateToRunOn f metadata
  ∨ w = PrepareCallbackWithlock jobId dateToRunOn f metadata →
  f (length (calls s)) (callbackArgument jobId dateToRunOn metadata) = Resolves →
  ∃ s',
    fire this w s = (Ok tt, s')
    ∧ calls s' = calls s ++ [callbackArgument jobId dateToRunOn metadata]
    ∧ collection s' = c1 ++ c2
    ∧ localCount s' jobId = 1
    ∧ pending (loop s') = pending (loop s)
    ∧ Job.getTimeoutId (scheduledJobs s') (Job.jobId this) = None.
Proof.
  intros Hb Hc Hc1 Hj Ha Ht Hl Hw Hres.
  assert (∀ (awaited : bool) (s0 : State),
            jobsCollection s0 = true →
            (collection s0 = c1 ++ d :: c2 ∨ collection s0 = c1 ++ claimUpdate d :: c2) →
            (awaited = true → scheduledJobs s0 !! Job.jobId this = Some None) →
            ∃ s', settle this awaited jobId dateToRunOn f metadata Resolves s0 = (Ok tt, s')
              ∧ collection s' = c1 ++ c2 ∧ localCount s' jobId = 1
              ∧ loop s' = loop s0
              ∧ Job.getTimeoutId (scheduledJobs s') (Job.jobId this) = None
              ∧ calls s' = calls s0) as Hend.
  { intros awaited s0 Hb0 Hc0 Htable.
    unfold settle, timeoutResumes, deleteJobFromDB, theCollection, bind, modify, pure.
    assert (deleteOne {[ "jobId" := VStr jobId ]} (collection s0) = c1 ++ c2) as Hdel.
    { destruct Hc0 as [-> | ->]; apply deleteOne_first;
        try (by apply jobId_no_match); apply matches_jobId; [done|].
      unfold claimUpdate. by rewrite lookup_insert_ne. }
    destruct awaited; simpl; rewrite Hb0.
    - match goal with |- context [forgetRetriedCount jobId ?s1] =>
        destruct (forgetRetriedCount_localCount s1 jobId)
          as (s' & -> & Hcount & Hcol & Hloop & Hsj & Hcalls)
      end.
      exists s'. split; [done|]. simpl in Hcol, Hloop, Hsj, Hcalls.
      rewrite Hcol, Hsj, Hdel. repeat split; try done.
      unfold Job.getTimeoutId. by rewrite Htable.
    - match goal with |- context [forgetRetriedCount jobId ?s1] =>
        destruct (forgetRetriedCount_localCount s1 jobId)
          as (s' & -> & Hcount & Hcol & Hloop & Hsj & Hcalls)
      end.
      exists s'. split; [done|]. simpl in Hcol, Hloop, Hsj, Hcalls.
      rewrite Hcol, Hsj, Hdel. repeat split; try done.
      unfold Job.getTimeoutId. by rewrite lookup_insert_eq. }
  destruct Hw as [-> | ->].
  - unfold fire, call, bind, gets, modify, pure. simpl. rewrite Hres.
    match goal with |- context [settle this false _ _ _ _ Resolves ?s0] =>
      destruct (Hend false s0) as (s' & -> & Hcol & Hcount & Hloop & Hsj & Hcalls);
        [done | by left | done |]
    end.
    exists s'. split; [done|]. by rewrite Hcalls, Hloop.
  - assert (matches (claimFilter jobId dateToRunOn) d = true) as Hm
      by (by apply matches_claim).
    assert (claimUpdate d ≠ d) as Hne.
    { intros Heq. apply (f_equal (λ m : Doc, m !! "isLocked")) in Heq.
      unfold claimUpdate in Heq. rewrite lookup_insert_eq, Hl in Heq. discriminate Heq. }
    pose proof (updateOne_first (claimFilter jobId dateToRunOn) claimUpdate c1 c2 d
                  (claim_no_match _ _ _ Hc1) Hm) as H1.
    rewrite decide_False in H1 by done.
    unfold fire. unfold bind at 1, modify at 1. unfold bind at 1.
    rewrite acquireLock_eval by done. simpl. rewrite Hc, H1. simpl.
    change (truthy (and_then 1 1)) with true.
    unfold timeoutResumes, call, bind, gets, modify, pure. simpl. rewrite Hres.
    match goal with |- context [settle this true _ _ _ _ Resolves ?s0] =>
      destruct (Hend true s0) as (s' & -> & Hcol & Hcount & Hloop & Hsj & Hcalls);
        [done | by right | intros _; simpl; by rewrite lookup_insert_eq |]
    end.
    exists s'. split; [done|]. by rewrite Hcalls, Hloop.
Qed.

Lemma successful_firing_completes_example :
  ∃ s',
    fire {| Job.jobId := "j1" |}
      (PrepareCallbackWithlock "j1" 1500 Scenario.succeeds {[ "op" := VStr "x" ]})
      Scenario.scheduled = (Ok tt, s')
    ∧ calls s' = calls Scenario.scheduled
                 ++ [callbackArgument "j1" 1500 {[ "op" := VStr "x" ]}]
    ∧ collection s' = [] ++ []
    ∧ localCount s' "j1" = 1
    ∧ pending (loop s') = pending (loop Scenario.scheduled)
    ∧ Job.getTimeoutId (scheduledJobs s') (Job.jobId {| Job.jobId := "j1" |}) = None.
Proof.
  apply (successful_firing_completes Scenario.scheduled {| Job.jobId := "j1" |}
           (PrepareCallbackWithlock "j1" 1500 Scenario.succeeds {[ "op" := VStr "x" ]})
           "j1" 1500 Scenario.succeeds {[ "op" := VStr "x" ]} Scenario.record [] []).
  - reflexivity.
  - vm_compute. reflexivity.
  - constructor.
  - vm_compute. reflexivity.
  - vm_compute. reflexivity.
  - vm_compute. reflexivity.
  - vm_compute. reflexivity.
  - right. reflexivity.
  - reflexivity.
Defined.

End Success.

(** ** Timeout handles *)

Section Handles.
Import Timers Mongo Scheduler Invariants.

#[local] Instance keepsTimersOk_refl : Reflexive keepsTimersOk.
Proof. intros s H. exact H. Qed.

#[local] Instance keepsTimersOk_trans : Transitive keepsTimersOk.
Proof. unfold keepsTimersOk. intros s1 s2 s3 H1 H2 H. auto. Qed.

Lemma unarm_handles {F : Type} (h : nat) (ts : list (Timeout F)) :
  handle <$> unarm h ts = List.filter (λ x, negb (Nat.eqb x h)) (handle <$> ts).
Proof.
  unfold unarm. induction ts as [|t ts IH]; simpl in *; [done|].
  destruct (negb (Nat.eqb (handle t) h)); simpl; [f_equal|]; exact IH.
Qed.

Lemma NoDup_filter_handles (P : nat → bool) (l : list nat) :
  NoDup l → NoDup (List.filter P l).
Proof.
  induction 1 as [|x l Hx _ IH]; simpl; [constructor|].
  destruct (P x); [|done]. constructor; [|done].
  rewrite list_elem_of_In, List.filter_In, <- list_elem_of_In. tauto.
Qed.

Lemma unarm_loopOk {F : Type} (h : nat) (l : EventLoop F) :
  loopOk l →
  loopOk {| clock := clock l; nextHandle := nextHandle l; pending := unarm h (pending l) |}.
Proof.
  intros [Hnd Hlt]. split; simpl.
  - rewrite unarm_handles. by apply NoDup_filter_handles.
  - by apply Forall_unarm.
Qed.

Lemma clearTimeout_loopOk {F : Type} (h : option nat) (l : EventLoop F) :
  loopOk l → loopOk (clearTimeout h l).
Proof. destruct h; simpl; [apply unarm_loopOk | done]. Qed.


Lemma unarm_gone {F : Type} (h : nat) (ts : list (Timeout F)) :
  h ∉ handle <$> unarm h ts.
Proof.
  rewrite unarm_handles, list_elem_of_In, List.filter_In. intros [_ Hh].
  by rewrite Nat.eqb_refl in Hh.
Qed.

Lemma scheduleJob_loopOk {C : Type} (this : Job.Job) (callback : C) (timeRemaining : Z)
    (sj : Job.ScheduledJobs) (l : EventLoop (Job.Closure C)) :
  loopOk l → loopOk (snd (Job.scheduleJob this callback timeRemaining sj l)).
Proof.
  intros [Hnd Hlt]. rewrite scheduleJob_armed. split; simpl.
  - rewrite fmap_app. apply NoDup_app. split; [done|]. split; [|apply NoDup_singleton].
    intros h Hh Hin. simpl in Hin. apply list_elem_of_singleton in Hin as ->.
    apply list_elem_of_fmap in Hh as (t & Heq & Ht).
    eapply Forall_forall in Hlt; [|exact Ht]. lia.
  - apply Forall_app. split.
    + eapply Forall_impl; [exact Hlt|]. intros t Ht. simpl in Ht. lia.
    + repeat constructor.
Qed.

Lemma jobSchedule_timersOk (job : Job.Job) (w : Wrapped) (timeRemaining : Z) :
  preserves keepsTimersOk (jobSchedule job w timeRemaining).
Proof.
  intros s [Hloop Htable]. rewrite jobSchedule_eval. split.
  - pose proof (scheduleJob_loopOk job w timeRemaining (scheduledJobs s) (loop s) Hloop)
      as H. by rewrite scheduleJob_armed in H.
  - intros j h. simpl. destruct (decide (j = Job.jobId job)) as [->|Hne].
    + rewrite lookup_insert_eq. intros [= <-]. lia.
    + rewrite lookup_insert_ne by done. intros Hj. apply Htable in Hj. lia.
Qed.

Lemma clearTimeout_nextHandle {F : Type} (h : option nat) (l : EventLoop F) :
  nextHandle (clearTimeout h l) = nextHandle l.
Proof. by destruct h. Qed.

(** The steps that leave the loop alone and add no handle to the table. *)
Ltac still :=
  lazymatch goal with |- Invariants.keepsTimersOk _ _ => idtac end;
  intros [Hloop Htable]; repeat case_match; (split; [try exact Hloop|]); simpl;
  rewrite ?clearTimeout_nextHandle; try exact Htable; try (by apply clearTimeout_loopOk); try (by apply unarm_loopOk);
  try (intros j0 h0 Hj0; apply (Htable j0 h0);
       first [ by apply lookup_delete_Some in Hj0 as [_ Hj0]
             | by apply lookup_insert_Some in Hj0 as [[_ [=]] | [_ Hj0]] ]).

Lemma fire_timersOk (this : Job.Job) (w : Wrapped) :
  preserves keepsTimersOk (fire this w).
Proof.
  destruct w as [jobId dateToRunOn callback metadata|jobId dateToRunOn callback metadata];
    unfold fire, call, settle, acquireLock, timeoutResumes, deleteJobFromDB,
      forgetRetriedCount, cancelJobFromMemory, doClearTimeout, deleteScheduled,
      handleRetries, updateRetryThresholdInDB, checkIfRetryExceeded, newJob,
      wrapCallback, now, prepareCallback, prepareCallbackWithlock;
    frame; try still; by apply jobSchedule_timersOk.
Qed.

Lemma earliest_None {F : Type} (ts : list (Timeout F)) : earliest ts = None → ts = [].
Proof. destruct ts as [|t ts]; [done|]. simpl. by repeat case_match. Qed.

Lemma tick_timersOk (s s' : State) : tick s = Some s' → timersOk s → timersOk s'.
Proof.
  unfold tick, popNext. destruct (earliest (pending (loop s))) as [t|]; [|done].
  intros [= <-] [Hloop Htable].
  match goal with |- context [set_loop ?l s] => assert (timersOk (set_loop l s)) as Hs end.
  { split; [by apply unarm_loopOk | exact Htable]. }
  destruct (body t) as [this w r | this w].
  - exact (jobSchedule_timersOk this w r _ Hs).
  - exact (fire_timersOk this w _ Hs).
Qed.

Lemma run_timersOk (n : nat) (s : State) : timersOk s → timersOk (run n s).
Proof.
  intros Hs. induction n as [|n IH]; simpl; [done|].
  unfold step. destruct (tick (run n s)) as [s'|] eqn:Ht; simpl; [|done].
  by apply (tick_timersOk (run n s)).
Qed.

Lemma boot_timersOk (c : Collection) (uuids : nat → string) (t : Z) :
  timersOk (boot c uuids t).
Proof. repeat split; simpl; try constructor. intros j h. by rewrite lookup_empty. Qed.

Lemma operations_timersOk (callback : Callee) (dateToRunOn : Z) (id : option string)
    (jobId : string) (metadata : Doc) (ref : JobRef) (config : Config)
    (opts : option PartialOptions) :
  preserves keepsTimersOk (init config opts)
  ∧ preserves keepsTimersOk (scheduleJob callback dateToRunOn id metadata)
  ∧ preserves keepsTimersOk (scheduleJobInMemory callback dateToRunOn jobId metadata)
  ∧ preserves keepsTimersOk (rescheduleJobs callback)
  ∧ preserves keepsTimersOk (updateJob jobId callback dateToRunOn metadata)
  ∧ preserves keepsTimersOk (cancelJob ref).
Proof.
  assert (∀ d j m, preserves keepsTimersOk (scheduleJobInMemory callback d j m)) as Hmem.
  { intros d j m.
    unfold scheduleJobInMemory, requireFunction, newJob, wrapCallback, now,
      prepareCallback, prepareCallbackWithlock.
    frame; try still; by apply jobSchedule_timersOk. }
  split_and!.
  - unfold init, initDB. frame; still.
  - unfold scheduleJob, requireFunction, newJob, storeJobInDB, wrapCallback, now,
      prepareCallback, prepareCallbackWithlock.
    frame; try still; by apply jobSchedule_timersOk.
  - apply Hmem.
  - unfold rescheduleJobs, getAllActiveJobsFromDB. frame; try still; apply Hmem.
  - unfold updateJob, doClearTimeout, deleteScheduled, now.
    frame; try still; apply Hmem.
  - unfold cancelJob, doClearTimeout, deleteScheduled, deleteJobFromDB, Job.cancelJob.
    frame; still.
Qed.

End Handles.

(** ** Scheduling, then cancelling *)

Section ScheduleCancel.
Import Timers Mongo Scheduler Invariants.




End ScheduleCancel.
